(** * finetune/association.py: windowed inference reconciliation and the
      association (relation) matrix codec.

    A shallow embedding of [AssociationPipeline] and [Association] from
    [src/finetune/association.py].  Python integers are [Z], sequences are
    lists, exceptions are an explicit error result, probability arrays are arrays
    of IEEE 754 binary64 numbers ([float]), numpy's default dtype. *)

From Stdlib Require Import ZArith List Lia Bool String Floats Uint63.
Import ListNotations.
Open Scope Z_scope.

(** ** A small model of the Python runtime the source relies on *)

Module Py.

Inductive exn : Type :=
| NameError
| IndexError
| KeyError
| ValueError
| TypeError
| FinetuneError (msg : string).

Inductive result (A : Type) : Type :=
| Ok (a : A)
| Raise (e : exn).
Arguments Ok {A} a.
Arguments Raise {A} e.

Definition bind {A B} (m : result A) (k : A -> result B) : result B :=
  match m with
  | Ok a => k a
  | Raise e => Raise e
  end.

(** [for x in xs: st = body st x], stopping at the first exception. *)
Fixpoint for_each {S A} (body : S -> A -> result S) (xs : list A) (st : S)
  : result S :=
  match xs with
  | [] => Ok st
  | x :: xs' => bind (body st x) (for_each body xs')
  end.

Definition len {A} (l : list A) : Z := Z.of_nat (List.length l).

(** Bound adjustment of a slice index for step 1 (negative indices count
    from the end, everything is clamped into [0, len]). *)
Definition adjust (n i : Z) : Z :=
  if i <? 0 then Z.max (i + n) 0 else Z.min i n.

(** [l[start:stop]]; [stop = None] is Python's [None]. *)
Definition slice {A} (start : Z) (stop : option Z) (l : list A) : list A :=
  let lo := adjust (len l) start in
  let hi := match stop with
            | None => len l
            | Some e => adjust (len l) e
            end in
  firstn (Z.to_nat (hi - lo)) (skipn (Z.to_nat lo) l).

(** [l[i]], with [IndexError] out of range. *)
Definition getitem {A} (l : list A) (i : Z) : result A :=
  let j := if i <? 0 then i + len l else i in
  if j <? 0 then Raise IndexError
  else match nth_error l (Z.to_nat j) with
       | Some a => Ok a
       | None => Raise IndexError
       end.

(** [zip] of three sequences: stops at the shortest. *)
Fixpoint zip3 {A B C} (la : list A) (lb : list B) (lc : list C)
  : list (A * B * C) :=
  match la, lb, lc with
  | a :: la', b :: lb', c :: lc' => (a, b, c) :: zip3 la' lb' lc'
  | _, _, _ => []
  end.

End Py.

Notation "x <- m ;; k" := (Py.bind m (fun x => k))
  (at level 61, m at next level, right associativity).

Import Py.

(** ** The trusted-range policy of [Association.predict] (lines 126-127, 151-171) *)

Definition chunk_size (max_length : Z) : Z := max_length - 2.

Definition step_size (max_length : Z) : Z := chunk_size max_length / 3.

(** The pair [(start, end)] after lines 151-167. *)
Definition trusted_range (max_length : Z) (start_of_doc end_of_doc : bool)
  : Z * option Z :=
  let step_size := step_size max_length in
  if start_of_doc then
    (0, if negb end_of_doc then Some (step_size * 2) else None)
  else if end_of_doc then
    (step_size, None)
  else
    (step_size, Some (step_size * 2)).

(** [seq[start:end]] for the range chosen above (lines 169-171). *)
Definition trusted_slice {A} (max_length : Z) (start_of_doc end_of_doc : bool)
  (l : list A) : list A :=
  let '(start, stop) := trusted_range max_length start_of_doc end_of_doc in
  slice start stop l.

(** The table of the specification: the half-open interval of offsets for a
    window of [n] tokens. *)
Definition spec_range (max_length : Z) (first last : bool) (n : Z) : Z * Z :=
  let step := step_size max_length in
  match first, last with
  | true, true => (0, n)
  | true, false => (0, 2 * step)
  | false, true => (step, n)
  | false, false => (step, 2 * step)
  end.

(** ** numpy and dict operations used by the span finalizer (lines 194-200) *)

Module Np.

(** [np.vstack] of 1-D rows: a [ValueError] unless there is at least one
    row and all rows have one length. *)
Definition vstack (rows : list (list float)) : result (list (list float)) :=
  match rows with
  | [] => Raise ValueError
  | r :: rs =>
      if forallb (fun r' => Nat.eqb (List.length r') (List.length r)) rs
      then Ok rows else Raise ValueError
  end.

Fixpoint vadd (a b : list float) : list float :=
  match a, b with
  | x :: a', y :: b' => (x + y)%float :: vadd a' b'
  | _, _ => []
  end.

(** The number of rows, as a float. *)
Definition count (m : list (list float)) : float :=
  PrimFloat.of_uint63 (Uint63.of_Z (Z.of_nat (List.length m))).

(** [np.mean(m, axis=0)] of a stacked matrix: the rows are added from the
    first to the last, each addition rounded to binary64, and every column
    sum is then divided by the number of rows. *)
Definition mean_axis0 (m : list (list float)) : list float :=
  match m with
  | [] => []
  | r :: rs => map (fun s => (s / count m)%float) (fold_left vadd rs r)
  end.

End Np.

Module Dict.

Definition t (V : Type) : Type := list (string * V).

(** [d[k] = v]: overwrite in place, or insert at the end. *)
Fixpoint set {V} (k : string) (v : V) (d : t V) : t V :=
  match d with
  | [] => [(k, v)]
  | (k', v') :: d' =>
      if String.eqb k k' then (k', v) :: d' else (k', v') :: set k v d'
  end.

(** [dict(pairs)]. *)
Definition of_pairs {V} (pairs : list (string * V)) : t V :=
  fold_left (fun d kv => set (fst kv) (snd kv) d) pairs [].

Definition mem {V} (k : string) (d : t V) : bool :=
  existsb (fun kv => String.eqb k (fst kv)) d.

(** [del d[k]], a [KeyError] when the key is absent. *)
Definition del {V} (k : string) (d : t V) : result (t V) :=
  if mem k d
  then Ok (filter (fun kv => negb (String.eqb k (fst kv))) d)
  else Raise KeyError.

End Dict.

(** ** The reconciliation loop of [Association.predict] (lines 134-204) *)

Definition label : Type := string.

(** One row of [pred[PredictMode.PROBAS]]: a probability per class. *)
Definition proba : Type := list float.

(** The fields of an encoded window that [predict] reads. *)
Record ArrayEncodedOutput : Type := {
  token_ids : list (list Z);
  char_locs : list Z
}.

Section Reconcile.

Context {char : Type}.
Local Abbreviation text := (list char).

(** [self.config.max_length], [self.multi_label], [self.config.pad_token],
    [label_encoder.classes_] and [ENCODER.start]. *)
Variable max_length : Z.
Variable multi_label : bool.
Variable pad_token : string.
Variable classes_ : list label.
Variable ENCODER_start : Z.

(** The per-document accumulators; they are bound together at the first
    window of a document. *)
Record doc_state : Type := {
  doc_subseqs : list text;
  doc_labels : list label;
  doc_probs : list (list proba);
  start_of_token : Z
}.

Record loop_state : Type := {
  doc : option doc_state;
  doc_idx : Z;
  all_subseqs : list (list text);
  all_labels : list (list label);
  all_probs : list (list (Dict.t float))
}.

Definition init_state : loop_state :=
  {| doc := None; doc_idx := -1;
     all_subseqs := []; all_labels := []; all_probs := [] |}.

(** [l[-1] = f(l[-1])]. *)
Definition update_last {A} (f : A -> A) (l : list A) : result (list A) :=
  match rev l with
  | [] => Raise IndexError
  | a :: r => Ok (rev r ++ [f a])
  end.

(** Lines 174-190: the body of the loop over the trusted tokens. *)
Definition token_body (X : list text) (doc_idx : Z)
  (od : option doc_state) (tok : label * Z * proba)
  : result (option doc_state) :=
  let '(label, position, proba) := tok in
  if position =? -1 then Ok od
  else
    match od with
    | None => Raise NameError
    | Some d =>
        new_span <-
          match doc_subseqs d with
          | [] => Ok true
          | _ :: _ =>
              prev <- getitem (doc_labels d) (-1) ;;
              Ok (negb (String.eqb label prev))
          end ;;
        x <- getitem X doc_idx ;;
        let piece := slice (start_of_token d) (Some position) x in
        if new_span : bool then
          Ok (Some {| doc_subseqs := doc_subseqs d ++ [piece];
                      doc_labels := doc_labels d ++ [label];
                      doc_probs := doc_probs d ++ [[proba]];
                      start_of_token := position |})
        else
          subseqs <- update_last (fun s => s ++ piece) (doc_subseqs d) ;;
          probs <- update_last (fun ps => ps ++ [proba]) (doc_probs d) ;;
          Ok (Some {| doc_subseqs := subseqs;
                      doc_labels := doc_labels d;
                      doc_probs := probs;
                      start_of_token := position |})
    end.

(** Lines 197-200: one span's probability dictionary. *)
Definition prob_dict (prob_seq : list proba) : result (Dict.t float) :=
  m <- Np.vstack prob_seq ;;
  let probs := Np.mean_axis0 m in
  let d := Dict.of_pairs (combine classes_ probs) in
  if multi_label then Dict.del pad_token d else Ok d.

Definition finalize (d : doc_state) : result (list (Dict.t float)) :=
  for_each (fun prob_dicts prob_seq =>
              pd <- prob_dict prob_seq ;; Ok (prob_dicts ++ [pd]))
           (doc_probs d) [].

Definition first_token_id (e : ArrayEncodedOutput) : result Z :=
  t0 <- getitem (token_ids e) 0 ;; getitem t0 0.

(** Lines 141-204: the body of the loop over the windows. *)
Definition chunk_body (X : list text) (arr_encoded : list ArrayEncodedOutput)
  (st : loop_state) (chunk : Z * (list label * list proba))
  : result loop_state :=
  let '(chunk_idx, (label_seq, proba_seq)) := chunk in
  enc <- getitem arr_encoded chunk_idx ;;
  let position_seq := char_locs enc in
  t <- first_token_id enc ;;
  let start_of_doc := t =? ENCODER_start in
  end_of_doc <-
    (if chunk_idx + 1 >=? len arr_encoded then Ok true
     else nxt <- getitem arr_encoded (chunk_idx + 1) ;;
          t' <- first_token_id nxt ;;
          Ok (t' =? ENCODER_start)) ;;
  let '(od, doc_idx') :=
    if start_of_doc
    then (Some {| doc_subseqs := []; doc_labels := []; doc_probs := [];
                  start_of_token := 0 |}, doc_idx st + 1)
    else (doc st, doc_idx st) in
  let label_seq := trusted_slice max_length start_of_doc end_of_doc label_seq in
  let position_seq :=
    trusted_slice max_length start_of_doc end_of_doc position_seq in
  let proba_seq := trusted_slice max_length start_of_doc end_of_doc proba_seq in
  od' <- for_each (token_body X doc_idx') (zip3 label_seq position_seq proba_seq) od ;;
  if end_of_doc : bool then
    match od' with
    | None => Raise NameError
    | Some d =>
        prob_dicts <- finalize d ;;
        Ok {| doc := od'; doc_idx := doc_idx';
              all_subseqs := all_subseqs st ++ [doc_subseqs d];
              all_labels := all_labels st ++ [doc_labels d];
              all_probs := all_probs st ++ [prob_dicts] |}
    end
  else
    Ok {| doc := od'; doc_idx := doc_idx';
          all_subseqs := all_subseqs st;
          all_labels := all_labels st;
          all_probs := all_probs st |}.

(** [enumerate]. *)
Fixpoint enumerate_from {A} (i : Z) (l : list A) : list (Z * A) :=
  match l with
  | [] => []
  | a :: l' => (i, a) :: enumerate_from (i + 1) l'
  end.

(** Lines 134-204: what is handed to [finetune_to_indico_sequence]. *)
Definition reconcile (X : list text) (arr_encoded : list ArrayEncodedOutput)
  (labels : list (list label)) (batch_probas : list (list proba))
  : result (list (list text) * list (list label) * list (list (Dict.t float))) :=
  st <- for_each (chunk_body X arr_encoded)
          (enumerate_from 0 (combine labels batch_probas)) init_state ;;
  Ok (all_subseqs st, all_labels st, all_probs st).

End Reconcile.

(** ** The single window of the stitching comparison *)

Section Stitched.

Variable max_length : Z.

(** The trusted parts of a first, a middle and a last window, one after the
    other. *)
Definition stitched {A} (s1 s2 s3 : list A) : list A :=
  trusted_slice max_length true false s1
  ++ trusted_slice max_length false false s2
  ++ trusted_slice max_length false true s3.

(** One window (it opens with the tokens of [w1], hence with the start
    token) whose offsets are the stitched offsets of [w1], [w2], [w3]. *)
Definition stitched_window (w1 w2 w3 : ArrayEncodedOutput) : ArrayEncodedOutput :=
  {| token_ids := token_ids w1;
     char_locs := stitched (char_locs w1) (char_locs w2) (char_locs w3) |}.

End Stitched.

(** The shape of the accumulators between two tokens: the three lists run in
    parallel and every span holds at least one probability vector, all of
    dimension [n]. *)
Definition span_invariant {char} (n : nat) (d : @doc_state char) : Prop :=
  List.length (doc_subseqs d) = List.length (doc_labels d) /\
  List.length (doc_labels d) = List.length (doc_probs d) /\
  Forall (fun ps => ps <> [] /\ Forall (fun v : proba => List.length v = n) ps)
         (doc_probs d).

Definition same_length3 {A B C} (a : list A) (b : list B) (c : list C) : Prop :=
  List.length a = List.length b /\ List.length b = List.length c.

(** A document of 16 one-character tokens cut into three windows of 10
    tokens that start 3 tokens apart; each window is labelled on its trusted
    third only ([Z] marks the untrusted predictions). *)
Module Ex3.

Definition x : list Z := [0; 1; 2; 3; 4; 5; 6; 7; 8; 9; 10; 11; 12; 13; 14; 15].

Definition w1 : ArrayEncodedOutput :=
  {| token_ids := [[7; 0]; [40; 1]];
     char_locs := [1; 2; 3; 4; 5; 6; 7; 8; 9; 10] |}.

Definition w2 : ArrayEncodedOutput :=
  {| token_ids := [[43; 3]; [44; 4]];
     char_locs := [4; 5; 6; 7; 8; 9; 10; 11; 12; 13] |}.

Definition w3 : ArrayEncodedOutput :=
  {| token_ids := [[46; 6]; [47; 7]];
     char_locs := [7; 8; 9; 10; 11; 12; 13; 14; 15; 16] |}.

Definition l1 : list label :=
  ["A"; "A"; "A"; "A"; "A"; "A"; "Z"; "Z"; "Z"; "Z"]%string.

Definition l2 : list label :=
  ["Z"; "Z"; "Z"; "B"; "B"; "B"; "Z"; "Z"; "Z"; "Z"]%string.

Definition l3 : list label :=
  ["Z"; "Z"; "Z"; "C"; "C"; "C"; "C"; "C"; "C"; "C"]%string.

Definition p : list proba := repeat [1; 0]%float 10.

End Ex3.

(** ** Windows laid out over the token positions of a document *)

(** A window as the tokenizer hands it over: the document position of its
    first token and the number of tokens it holds. *)
Record Window : Type := {
  w_start : Z;
  w_len : nat
}.

Definition w_end (w : Window) : Z := w_start w + Z.of_nat (w_len w).

(** The positions [a, a+1, ..., b-1]. *)
Definition Zrange (a b : Z) : list Z :=
  map (fun j => a + Z.of_nat j) (seq 0 (Z.to_nat (b - a))).

(** The document position of every token of a window, in window order. *)
Definition window_positions (w : Window) : list Z :=
  Zrange (w_start w) (w_end w).

(** The slice that [predict] applies to the sequences of a window, applied
    to the document positions of its tokens. *)
Definition trusted_positions (max_length : Z) (first last : bool) (w : Window)
  : list Z :=
  trusted_slice max_length first last (window_positions w).

(** The windows of one document in order: the head is the first window, the
    window without a successor is the last one. *)
Fixpoint doc_trusted_positions (max_length : Z) (first : bool)
  (ws : list Window) : list (list Z) :=
  match ws with
  | [] => []
  | w :: ws' =>
      trusted_positions max_length first
        (match ws' with [] => true | _ :: _ => false end) w
      :: doc_trusted_positions max_length false ws'
  end.

Definition covers (p : Z) (positions : list Z) : bool :=
  existsb (Z.eqb p) positions.

(** The number of windows whose trusted range contains position [p]. *)
Definition cover_count (max_length : Z) (ws : list Window) (p : Z) : nat :=
  List.length (filter (covers p) (doc_trusted_positions max_length true ws)).

(** Left-to-right windows inside a document of [N] tokens, each overlapping
    its successor by at least [2 * step] tokens, the last one ending with
    the document. *)
Fixpoint overlapping (step N : Z) (ws : list Window) : bool :=
  match ws with
  | [] => true
  | w :: ws' =>
      match ws' with
      | [] => w_end w =? N
      | w' :: _ =>
          (w_start w <? w_start w')
          && (2 * step <=? w_end w - w_start w')
          && (w_end w <=? N)
          && overlapping step N ws'
      end
  end.

Definition starts_at_zero (ws : list Window) : bool :=
  match ws with
  | [] => false
  | w :: _ => w_start w =? 0
  end.

(** Every window starts exactly [step] tokens after its predecessor. *)
Fixpoint strided (step : Z) (ws : list Window) : bool :=
  match ws with
  | [] => true
  | w :: ws' =>
      match ws' with
      | [] => true
      | w' :: _ => (w_start w' =? w_start w + step) && strided step ws'
      end
  end.

(** ** Configuration and the public operations of [Association] *)

Module Config.

Record Settings : Type := {
  max_length : Z;
  multi_label_sequences : bool;
  pad_token : string;
  subtoken_predictions : bool;
  possible_associations : list string
}.

End Config.

(** One element of [self._inference(X, mode=None)]. *)
Record Pred : Type := {
  NORMAL : list Z;
  PROBAS : list proba
}.

Section Association.

Context {char annotation : Type}.
Local Abbreviation text := (list char).

Variable config : Config.Settings.

(** [self.multi_label]. *)
Variable multi_label : bool.

(** The collaborators that are not part of this file: the input pipeline,
    the estimator, the label encoder, the text encoder's start token, the
    span-to-annotation mapper and the base class setup. *)
Variable text_to_ids : list text -> list ArrayEncodedOutput.
Variable inference : list text -> list Pred.
Variable inverse_transform : list Z -> list label.
Variable classes_ : list label.
Variable ENCODER_start : Z.
Variable finetune_to_indico_sequence :
  list text -> list (list text) -> list (list label) ->
  list (list (Dict.t float)) -> bool -> list text * list annotation.
Variable BaseModel_initialize : Config.Settings -> result unit.

(** Lines 109-112. *)
Definition _initialize : result unit :=
  if Config.multi_label_sequences config
  then Raise (FinetuneError "Multi label association not supported")
  else BaseModel_initialize config.

(** Lines 119-213. *)
Definition predict (X : list text) : result (list annotation) :=
  let arr_encoded := flat_map (fun x => text_to_ids [x]) X in
  let preds := inference X in
  let labels := map (fun pred => inverse_transform (NORMAL pred)) preds in
  let batch_probas := map PROBAS preds in
  spans <- reconcile (Config.max_length config) multi_label
             (Config.pad_token config) classes_ ENCODER_start
             X arr_encoded labels batch_probas ;;
  let '(all_subseqs, all_labels, all_probs) := spans in
  let '(_, doc_annotations) :=
    finetune_to_indico_sequence X all_subseqs all_labels all_probs
      (Config.subtoken_predictions config) in
  Ok doc_annotations.

(** Lines 224-231. *)
Definition predict_proba (X : list text) : result (list annotation) :=
  predict X.

End Association.

(** ** Decoding: [Association._predict_op] (lines 244-266) *)

(** The two dictionaries [_predict_op] builds have the keys ["sequence"]
    and ["association"], as has the dictionary it is given. *)
Record Heads (S A : Type) : Type := {
  sequence : S;
  association : A
}.
Arguments sequence {S A} _.
Arguments association {S A} _.

(** [t[key]] for a tensor [t] and a string [key]: a tensor is subscripted
    with integers, slices and integer tensors, and refuses a string with a
    [TypeError]. *)
Definition tensor_getitem_str {T R : Type} (t : T) (key : string) : result R :=
  Raise TypeError.

Section PredictOp.

(** The tensors stay abstract, together with the operations on them that
    live outside this file: [T] for the sequence head, [A] for association
    scores, [P] for probabilities and [I] for type ids.  [tf.softmax] is a
    call that may fail. *)
Context {T A P I : Type}.
Variable multi_label : bool.
Variable sequence_decode : T -> T -> T * T.
Variable tf_unstack_last : T -> list T.
Variable tf_stack_last : list T -> T.
Variable iterate : T -> list T.
Variable drop_first_class : T -> T.
Variable tf_softmax : A -> result P.
Variable tf_argmax : A -> I.

(** Line 246 rebinds [logits] to the sequence tensor; line 247 subscripts
    that tensor, not the dictionary. *)
Definition _predict_op (logits : Heads T A) (transition_matrix : T)
  : result (Heads T I * Heads T I) :=
  let logits := sequence logits in
  associations <- tensor_getitem_str (R := A) logits "association" ;;
  let trans_mats := transition_matrix in
  let '(label_idxs, label_probas) :=
    if multi_label then
      let decoded :=
        map (fun '(logits_i, trans_mat_i) =>
               let '(idx, prob) := sequence_decode logits_i trans_mat_i in
               (idx, drop_first_class prob))
            (combine (tf_unstack_last logits) (iterate trans_mats)) in
      (tf_stack_last (map fst decoded), tf_stack_last (map snd decoded))
    else sequence_decode logits trans_mats in
  association_prob <- tf_softmax associations ;;
  let association_pred := tf_argmax associations in
  Ok ({| sequence := label_idxs; association := association_pred |},
      {| sequence := label_probas; association := association_pred |}).

End PredictOp.

(** The score tensor of shape [L, L, T] that is 1 at [source, target, type]
    and 0 elsewhere. *)
Definition one_hot (L T : nat) (source target type : nat)
  : list (list (list float)) :=
  map (fun i =>
         map (fun j =>
                map (fun k =>
                       if Nat.eqb i source && Nat.eqb j target && Nat.eqb k type
                       then 1%float else 0%float)
                    (seq 0 T))
             (seq 0 L))
      (seq 0 L).

(** ** Encoding: [AssociationPipeline.text_to_tokens_mask] (lines 33-44) *)

Module Scipy.

(** A Python value found where [csr_matrix] expects a dimension. *)
Inductive pyval : Type :=
| PyInt (n : Z)
| PySeq (l : list Z).

Record matrix : Type := {
  shape : Z * Z;
  rows : list (list Z)
}.

(** A shape is a pair of non-negative integers; a sequence in the place of
    a dimension is refused. *)
Definition check_shape (s : pyval * pyval) : result (Z * Z) :=
  match s with
  | (PyInt m, PyInt n) =>
      if (0 <=? m) && (0 <=? n) then Ok (m, n) else Raise ValueError
  | _ => Raise TypeError
  end.

Definition dense_shape (D : list (list Z)) : Z * Z :=
  (len D, match D with [] => 0 | r :: _ => len r end).

Fixpoint chunks {A} (n : nat) (k : nat) (l : list A) : list (list A) :=
  match n with
  | O => []
  | S n' => firstn k l :: chunks n' k (skipn k l)
  end.

(** [scipy.sparse.csr_matrix(arg1, shape=None)] for a dense two-dimensional
    [arg1], the form of the call on line 43: [association_indicator] is
    [arg1] and the pair [(idx, association_idx)] is the second positional
    parameter, the shape.  The matrix holds the entries of [arg1]; a given
    shape has to be a valid shape with as many cells. *)
Definition csr_matrix (D : list (list Z)) (shape_arg : option (pyval * pyval))
  : result matrix :=
  match shape_arg with
  | None => Ok {| shape := dense_shape D; rows := D |}
  | Some s =>
      mn <- check_shape s ;;
      let '(m, n) := mn in
      if m * n =? fst (dense_shape D) * snd (dense_shape D)
      then Ok {| shape := (m, n);
                 rows := chunks (Z.to_nat m) (Z.to_nat n) (List.concat D) |}
      else Raise ValueError
  end.

Definition toarray (M : matrix) : list (list Z) := rows M.

End Scipy.

(** [np.expand_dims(v, 1)]. *)
Definition expand_dims_1 (v : list Z) : list (list Z) := map (fun a => [a]) v.

(** [np.int32] on integers: two's complement wrap-around to 32 bits. *)
Definition np_int32 (z : Z) : Z := (z + 2 ^ 31) mod 2 ^ 32 - 2 ^ 31.

(** [out.labels]: four parallel sequences, one entry per token. *)
Record Labels : Type := {
  label_ : list label;
  association_type : list string;
  association_idx : list Z;
  idx : list Z
}.

(** An element of [self._text_to_ids(X, Y=Y, pad_token=pad_token)]. *)
Record EncodedOutput : Type := {
  out_token_ids : list (list Z);
  out_mask : list Z;
  out_labels : option Labels
}.

Record Feats : Type := {
  tokens : list (list Z);
  mask : list Z
}.

Record Targets : Type := {
  labels : list Z;
  associations : list (list Z)
}.

(** The [pad_token] argument of [_text_to_ids]: the pad token itself or a
    one-element list of it. *)
Inductive pad_arg : Type :=
| PadToken (s : string)
| PadList (l : list string).

(** A generator whose body runs once per element of [l]: it yields the
    results in order and ends with the first exception the body raises,
    which is the outcome of that step. *)
Fixpoint generate {A B} (body : A -> result B) (l : list A)
  : list (result B) :=
  match l with
  | [] => []
  | a :: l' =>
      match body a with
      | Ok b => Ok b :: generate body l'
      | Raise e => [Raise e]
      end
  end.

Section AssociationPipeline.

Context {XT YT : Type}.
Variable config : Config.Settings.
Variable multi_label : bool.

(** The base pipeline and the fitted encoders ([_text_to_ids], a method
    of the pipeline that reads its configuration, [association_encoder],
    [label_encoder]). *)
Variable _text_to_ids :
  Config.Settings -> XT -> option YT -> pad_arg -> list EncodedOutput.
Variable association_encoder_transform : list string -> list Z.
Variable label_encoder_transform : list label -> list Z.
Variable label_encoder_target_dim : Z.

(** Lines 41-43. *)
Definition encode_associations (l : Labels) : result (list (list Z)) :=
  let association_indicator :=
    expand_dims_1 (association_encoder_transform (association_type l)) in
  M <- Scipy.csr_matrix association_indicator
         (Some (Scipy.PySeq (idx l), Scipy.PySeq (association_idx l))) ;;
  Ok (Scipy.toarray M).

(** Lines 37-44: one pass through the loop body, for one encoded window.
    Unpacking [out.labels] when it is [None] is a [TypeError]. *)
Definition text_to_tokens_mask_item (Y : option YT) (out : EncodedOutput)
  : result (Feats * option Targets) :=
  let feats := {| tokens := out_token_ids out; mask := out_mask out |} in
  match Y with
  | None => Ok (feats, None)
  | Some _ =>
      l <- match out_labels out with
           | Some l => Ok l
           | None => Raise TypeError
           end ;;
      associations <- encode_associations l ;;
      Ok (feats,
          Some {| labels := label_encoder_transform (label_ l);
                  associations := map (map np_int32) associations |})
  end.

(** Lines 33-44: the outcome of each step of the generator, up to and
    including the step that raises. *)
Definition text_to_tokens_mask (X : XT) (Y : option YT)
  : list (result (Feats * option Targets)) :=
  let pad_token :=
    if multi_label then PadList [Config.pad_token config]
    else PadToken (Config.pad_token config) in
  let out_gen := _text_to_ids config X Y pad_token in
  generate (text_to_tokens_mask_item Y) out_gen.

(** Lines 52-79, the shapes: ["tokens"], ["mask"], ["labels"] and
    ["associations"]. *)
Definition feed_shape_type_def : list Z * list Z * list Z * list Z :=
  let target_shape :=
    if multi_label
    then [Config.max_length config; label_encoder_target_dim]
    else [Config.max_length config] in
  ([Config.max_length config; 2],
   [Config.max_length config],
   target_shape,
   [Config.max_length config; Config.max_length config]).

End AssociationPipeline.

(** ** Concrete inputs used by the evaluations below *)

(** [max_length = 4]: chunk size 2 and step 0.  One document of two windows
    with labels [A] on the first and [B] on the last window. *)
Module Ex8.

Definition config : Config.Settings :=
  {| Config.max_length := 4;
     Config.multi_label_sequences := false;
     Config.pad_token := "<PAD>";
     Config.subtoken_predictions := false;
     Config.possible_associations := [] |}.

Definition x : list Z := [0; 1; 2; 3; 4; 5].

Definition windows : list ArrayEncodedOutput :=
  [{| token_ids := [[7; 0]; [40; 1]]; char_locs := [1; 2] |};
   {| token_ids := [[41; 0]; [42; 1]]; char_locs := [2; 3] |}].

Definition preds : list Pred :=
  [{| NORMAL := [0; 0]; PROBAS := [[1; 0]; [1; 0]]%float |};
   {| NORMAL := [1; 1]; PROBAS := [[0; 1]; [0; 1]]%float |}].

Definition inverse_transform (ids : list Z) : list label :=
  map (fun i => if i =? 0 then "A"%string else "B"%string) ids.

(** A mapper that pairs every span text with its label. *)
Definition to_annotations (X : list (list Z)) (subseqs : list (list (list Z)))
  (labels : list (list label)) (probs : list (list (Dict.t float))) (sub : bool)
  : list (list Z) * list (list Z * label) :=
  (X, combine (List.concat subseqs) (List.concat labels)).

End Ex8.

(** A sequence head without content, to evaluate [_predict_op] on
    association scores alone. *)
Module NoSeq.

Definition sequence_decode (logits trans : unit) : unit * unit := (tt, tt).
Definition tf_unstack_last (t : unit) : list unit := [].
Definition tf_stack_last (l : list unit) : unit := tt.
Definition iterate (t : unit) : list unit := [].
Definition drop_first_class (t : unit) : unit := tt.

Definition decode {P I : Type}
  (tf_softmax : list (list (list float)) -> result P)
  (tf_argmax : list (list (list float)) -> I)
  (scores : list (list (list float)))
  : result (Heads unit I * Heads unit I) :=
  _predict_op false sequence_decode tf_unstack_last tf_stack_last iterate
    drop_first_class tf_softmax tf_argmax
    {| sequence := tt; association := scores |} tt.

End NoSeq.

(** One window of a training document with a single tuple: label [x],
    relation type [rel], target token 1, source token 0. *)
Module Ex6.

Definition config : Config.Settings :=
  {| Config.max_length := 4;
     Config.multi_label_sequences := false;
     Config.pad_token := "<PAD>";
     Config.subtoken_predictions := false;
     Config.possible_associations := ["rel"%string] |}.

Definition out (target source : Z) : EncodedOutput :=
  {| out_token_ids := [[7; 0]; [40; 1]];
     out_mask := [1; 1];
     out_labels := Some {| label_ := ["x"%string];
                           association_type := ["rel"%string];
                           association_idx := [target];
                           idx := [source] |} |}.

Definition _text_to_ids (target source : Z) (config : Config.Settings)
  (X : unit) (Y : option unit) (pad : pad_arg) : list EncodedOutput :=
  [out target source].

(** [<PAD>] is class 0, [rel] is class 1. *)
Definition association_encoder_transform (types : list string) : list Z :=
  map (fun s => if String.eqb s "<PAD>" then 0 else 1) types.

Definition label_encoder_transform (ls : list label) : list Z :=
  map (fun s => if String.eqb s "<PAD>" then 0 else 1) ls.

End Ex6.

(** ** The remaining methods of [AssociationPipeline] and [Association] *)

(** Lines 46-47. *)
Definition _format_for_encoding {A} (X : A) : list A := [X].

(** Lines 49-50. *)
Definition _format_for_inference {A} (X : list A) : list (list A) :=
  map (fun x => [x]) X.

Section PostData.

Context {L R : Type}.
Variable BasePipeline_post_data_initialization : list L -> R.

(** Lines 29-31. *)
Definition _post_data_initialization (Y : list (list L)) : R :=
  let Y_ := List.concat Y in
  BasePipeline_post_data_initialization Y_.

End PostData.

(** [zip] of four sequences. *)
Fixpoint zip4 {A B C D} (la : list A) (lb : list B) (lc : list C)
  (ld : list D) : list (A * B * C * D) :=
  match la, lb, lc, ld with
  | a :: la', b :: lb', c :: lc', d :: ld' =>
      (a, b, c, d) :: zip4 la' lb' lc' ld'
  | _, _, _, _ => []
  end.

Section Finetune.

Context {XT YT XT' A B C D R : Type}.

(** [finetune.utils.indico_to_finetune_sequence] and [BaseModel.finetune]. *)
Variable indico_to_finetune_sequence :
  XT -> option YT -> bool -> string ->
  XT' * list A * list B * list C * list D.
Variable BaseModel_finetune :
  XT' -> option (list (A * B * C * D)) -> option Z -> R.

(** Lines 114-117. *)
Definition finetune (Xs : XT) (Y : option YT) (batch_size : option Z) : R :=
  let '(Xs, Y_new, association_type, association_idx, idxs) :=
    indico_to_finetune_sequence Xs Y false "<PAD>" in
  let Y := match Y with
           | Some _ => Some (zip4 Y_new association_type association_idx idxs)
           | None => None
           end in
  BaseModel_finetune Xs Y batch_size.

End Finetune.

(** ** Reconciliation document by document *)

(** No two neighbours of a list are equal. *)
Fixpoint no_adjacent_eq (l : list label) : Prop :=
  match l with
  | a :: (b :: _) as t => a <> b /\ no_adjacent_eq t
  | _ => True
  end.

Definition is_padding (tok : label * Z * proba) : bool := snd (fst tok) =? -1.

(** The end offsets of the tokens that are not padding, in order. *)
Definition positions (toks : list (label * Z * proba)) : list Z :=
  map (fun tok => snd (fst tok)) (filter (fun tok => negb (is_padding tok)) toks).

(** Offsets that start at or after [from] and never decrease. *)
Fixpoint ascending (from : Z) (ps : list Z) : Prop :=
  match ps with
  | [] => True
  | p :: ps' => from <= p /\ ascending p ps'
  end.

(** An encoded window with the predictions made for it. *)
Definition window_pred : Type := ArrayEncodedOutput * (list label * list proba).

Section ByDocument.

Context {char : Type}.
Local Abbreviation text := (list char).

Variable max_length : Z.
Variable multi_label : bool.
Variable pad_token : string.
Variable classes_ : list label.
Variable ENCODER_start : Z.

(** What lines 154-158 bind at the first window of a document. *)
Definition fresh_doc : @doc_state char :=
  {| doc_subseqs := []; doc_labels := []; doc_probs := [];
     start_of_token := 0 |}.

Definition opens_document (w : ArrayEncodedOutput) : bool :=
  match first_token_id w with
  | Ok t => t =? ENCODER_start
  | Raise _ => false
  end.

Definition continues_document (w : ArrayEncodedOutput) : bool :=
  match first_token_id w with
  | Ok t => negb (t =? ENCODER_start)
  | Raise _ => false
  end.

(** The windows of one document: the first opens with the start token, the
    others do not. *)
Definition one_document (dws : list window_pred) : bool :=
  match dws with
  | [] => false
  | (w, _) :: rest =>
      opens_document w && forallb (fun wp => continues_document (fst wp)) rest
  end.

(** The trusted tokens of the windows of a document, in order. *)
Fixpoint doc_tokens (first : bool) (dws : list window_pred)
  : list (label * Z * proba) :=
  match dws with
  | [] => []
  | (w, (l, p)) :: rest =>
      let last := match rest with [] => true | _ :: _ => false end in
      zip3 (trusted_slice max_length first last l)
           (trusted_slice max_length first last (char_locs w))
           (trusted_slice max_length first last p)
      ++ doc_tokens false rest
  end.

(** One pass over the trusted tokens of a document, then the finalizer. *)
Definition reconcile_doc (x : text) (dws : list window_pred)
  : result (list text * list label * list (Dict.t float)) :=
  od <- for_each (token_body [x] 0) (doc_tokens true dws) (Some fresh_doc) ;;
  match od with
  | None => Raise NameError
  | Some d =>
      prob_dicts <- finalize multi_label pad_token classes_ d ;;
      Ok (doc_subseqs d, doc_labels d, prob_dicts)
  end.

Definition append_spans
  (acc : list (list text) * list (list label) * list (list (Dict.t float)))
  (r : list text * list label * list (Dict.t float))
  : list (list text) * list (list label) * list (list (Dict.t float)) :=
  let '(subseqs, labels, probs) := acc in
  let '(s, l, p) := r in
  (subseqs ++ [s], labels ++ [l], probs ++ [p]).

(** The documents of a batch one after the other, stopping at the first
    exception. *)
Definition reconcile_docs (docs : list (text * list window_pred))
  : result (list (list text) * list (list label) * list (list (Dict.t float))) :=
  for_each (fun acc doc =>
              r <- reconcile_doc (fst doc) (snd doc) ;; Ok (append_spans acc r))
           docs ([], [], []).

(** The three arguments of [reconcile] that a batch of documents gives. *)
Definition batch_windows (docs : list (text * list window_pred))
  : list ArrayEncodedOutput :=
  flat_map (fun doc => map fst (snd doc)) docs.

Definition batch_labels (docs : list (text * list window_pred))
  : list (list label) :=
  flat_map (fun doc => map (fun wp => fst (snd wp)) (snd doc)) docs.

Definition batch_probas (docs : list (text * list window_pred))
  : list (list proba) :=
  flat_map (fun doc => map (fun wp => snd (snd wp)) (snd doc)) docs.

End ByDocument.

(** The windows, labels and probabilities of a document put into one
    window that opens like the first one. *)
Definition stitched_doc (max_length : Z) (dws : list window_pred) : window_pred :=
  let toks := doc_tokens max_length true dws in
  ({| token_ids := match dws with
                   | [] => []
                   | (w, _) :: _ => token_ids w
                   end;
      char_locs := map (fun tok => snd (fst tok)) toks |},
   (map (fun tok => fst (fst tok)) toks, map snd toks)).

(** Two batches of spans one after the other. *)
Definition concat_spans {T L P : Type}
  (a b : list T * list L * list P) : list T * list L * list P :=
  (fst (fst a) ++ fst (fst b), snd (fst a) ++ snd (fst b), snd a ++ snd b).

(** ** More window layouts *)

(** Windows that start [step] tokens apart and are cut at the end of a
    document of [N] tokens: every window but the last reaches [2 * step]
    tokens or the end of the document, the last one ends with it. *)
Fixpoint cut_at_end (step N : Z) (ws : list Window) : bool :=
  match ws with
  | [] => true
  | w :: ws' =>
      match ws' with
      | [] => w_end w =? N
      | w' :: _ =>
          (Z.min (w_start w + 2 * step) N <=? w_end w)
          && (w_end w <=? N)
          && cut_at_end step N ws'
      end
  end.

(** ** The body of the window loop, once the two flags are known *)

Section WindowStep.

Context {char : Type}.
Variable max_length : Z.
Variable multi_label : bool.
Variable pad_token : string.
Variable classes_ : list label.
Variable ENCODER_start : Z.

(** Lines 192-204 when the window is the last of its document. *)
Definition finish (k : Z) (st : @loop_state char) (od : option doc_state)
  : result loop_state :=
  match od with
  | None => Raise NameError
  | Some d =>
      prob_dicts <- finalize multi_label pad_token classes_ d ;;
      Ok {| doc := od; doc_idx := k;
            all_subseqs := all_subseqs st ++ [doc_subseqs d];
            all_labels := all_labels st ++ [doc_labels d];
            all_probs := all_probs st ++ [prob_dicts] |}
  end.

(** Lines 151-204 for given [start_of_doc] and [end_of_doc]. *)
Definition chunk_step (X : list (list char)) (start_of_doc end_of_doc : bool)
  (position_seq : list Z) (st : loop_state)
  (label_seq : list label) (proba_seq : list proba) : result loop_state :=
  let '(od, doc_idx') :=
    if start_of_doc
    then (Some {| doc_subseqs := []; doc_labels := []; doc_probs := [];
                  start_of_token := 0 |}, doc_idx st + 1)
    else (doc st, doc_idx st) in
  od' <- for_each (token_body X doc_idx')
           (zip3 (trusted_slice max_length start_of_doc end_of_doc label_seq)
                 (trusted_slice max_length start_of_doc end_of_doc position_seq)
                 (trusted_slice max_length start_of_doc end_of_doc proba_seq))
           od ;;
  if end_of_doc then finish doc_idx' st od'
  else Ok {| doc := od'; doc_idx := doc_idx';
             all_subseqs := all_subseqs st;
             all_labels := all_labels st;
             all_probs := all_probs st |}.

(** No window follows, or the next one opens a document. *)
Definition document_ends (post : list ArrayEncodedOutput) : Prop :=
  match post with
  | [] => True
  | w :: _ => opens_document ENCODER_start w = true
  end.

End WindowStep.

(** ** Shapes kept by the loop *)

(** The accumulators of a document run in parallel and no two neighbouring
    labels are equal. *)
Definition well_shaped {char} (od : option (@doc_state char)) : Prop :=
  match od with
  | None => True
  | Some d =>
      List.length (doc_subseqs d) = List.length (doc_labels d)
      /\ List.length (doc_labels d) = List.length (doc_probs d)
      /\ no_adjacent_eq (doc_labels d)
  end.

Definition outputs_ok {char} (st : @loop_state char) : Prop :=
  well_shaped (doc st)
  /\ Forall2 (fun s l => List.length s = List.length l)
       (all_subseqs st) (all_labels st)
  /\ Forall2 (fun (l : list label) (p : list (Dict.t float)) =>
                List.length l = List.length p)
       (all_labels st) (all_probs st)
  /\ Forall no_adjacent_eq (all_labels st).

(** The span texts put end to end are the text up to the offset reached. *)
Definition tiles {char} (x : list char) (d : @doc_state char) : Prop :=
  List.concat (doc_subseqs d) = slice 0 (Some (start_of_token d)) x
  /\ 0 <= start_of_token d.

(** A first window with its predictions and two more that continue it
    (the document of [Ex3]), and a second document of one window. *)
Module Ex5.

Definition doc1 : list window_pred :=
  [(Ex3.w1, (Ex3.l1, Ex3.p)); (Ex3.w2, (Ex3.l2, Ex3.p));
   (Ex3.w3, (Ex3.l3, Ex3.p))].

Definition doc2 : list window_pred :=
  [({| token_ids := [[7; 0]; [50; 1]]; char_locs := [2; -1; 4] |},
    (["B"; "B"; "A"]%string, [[0; 1]; [0; 1]; [1; 0]]%float))].

Definition x2 : list Z := [20; 21; 22; 23].

Definition padding_doc : list window_pred :=
  [({| token_ids := [[7; 0]]; char_locs := [-1; -1] |},
    (["A"; "A"]%string, [[1; 0]; [1; 0]]%float));
   ({| token_ids := [[9; 0]]; char_locs := [-1; -1; -1] |},
    (["A"; "B"; "B"]%string, [[1; 0]; [0; 1]; [0; 1]]%float))].

Definition unopened : list window_pred :=
  [({| token_ids := [[9; 0]]; char_locs := [1; 2] |},
    (["A"; "A"]%string, [[1; 0]; [1; 0]]%float))].

(** What the loop returns on the document of [Ex3]. *)
Definition spans3
  : list (list (list Z)) * list (list label) * list (list (Dict.t float)) :=
  ([[[0; 1; 2; 3; 4; 5]; [6; 7; 8]; [9; 10; 11; 12; 13; 14; 15]]],
   [["A"; "B"; "C"]%string],
   [[Dict.of_pairs (combine ["A"; "B"]%string
                      (Np.mean_axis0 (repeat [1; 0]%float 6)));
     Dict.of_pairs (combine ["A"; "B"]%string
                      (Np.mean_axis0 (repeat [1; 0]%float 3)));
     Dict.of_pairs (combine ["A"; "B"]%string
                      (Np.mean_axis0 (repeat [1; 0]%float 7)))]]).

(** The state the token loop reaches on [toks] over the text of [Ex3]. *)
Definition after_toks : @doc_state Z :=
  {| doc_subseqs := [[0; 1; 2]; [3; 4]];
     doc_labels := ["A"; "B"]%string;
     doc_probs := [[[1; 0]; [1; 0]]; [[0; 1]]]%float;
     start_of_token := 5 |}.

Definition toks : list (label * Z * proba) :=
  [("A"%string, 2, [1; 0]%float); ("A"%string, -1, [1; 0]%float);
   ("A"%string, 3, [1; 0]%float); ("B"%string, 5, [0; 1]%float)].

End Ex5.
(** ** Slicing lemmas *)

Section SliceFacts.
Context {A : Type}.
Implicit Types l : list A.

Lemma nth_error_firstn_skipn l (a b k : nat) :
  nth_error (firstn b (skipn a l)) k =
  if (k <? b)%nat then nth_error l (a + k) else None.
Proof.
  destruct (Nat.ltb_spec k b) as [Hlt | Hge].
  - rewrite nth_error_firstn.
    destruct (Nat.ltb_spec k b); [| lia].
    now rewrite nth_error_skipn.
  - apply nth_error_None. rewrite length_firstn. lia.
Qed.

Lemma adjust_nonneg n i : 0 <= n -> 0 <= i -> adjust n i = Z.min i n.
Proof.
  intros Hn Hi. unfold adjust.
  destruct (Z.ltb_spec i 0); [lia | reflexivity].
Qed.

(** For non-negative bounds, a slice is the interval [lo, hi) cut at the
    length of the sequence. *)
Lemma nth_error_slice_nonneg l (lo hi : Z) (k : nat) :
  0 <= lo -> 0 <= hi ->
  nth_error (slice lo (Some hi) l) k =
  if lo + Z.of_nat k <? hi
  then nth_error l (Z.to_nat (lo + Z.of_nat k)) else None.
Proof.
  intros Hlo Hhi. unfold slice.
  assert (Hn : 0 <= len l) by (unfold len; lia).
  rewrite !adjust_nonneg by assumption.
  rewrite nth_error_firstn_skipn.
  destruct (Nat.ltb_spec k (Z.to_nat (Z.min hi (len l) - Z.min lo (len l))))
    as [Hk | Hk]; destruct (Z.ltb_spec (lo + Z.of_nat k) hi) as [Hh | Hh];
    try reflexivity.
  - f_equal. lia.
  - lia.
  - symmetry. apply nth_error_None. unfold len in *. lia.
Qed.

Lemma nth_error_slice_open l (lo : Z) (k : nat) :
  0 <= lo ->
  nth_error (slice lo None l) k =
  if lo + Z.of_nat k <? len l
  then nth_error l (Z.to_nat (lo + Z.of_nat k)) else None.
Proof.
  intros Hlo. unfold slice.
  assert (Hn : 0 <= len l) by (unfold len; lia).
  rewrite adjust_nonneg by assumption.
  rewrite nth_error_firstn_skipn.
  destruct (Nat.ltb_spec k (Z.to_nat (len l - Z.min lo (len l))))
    as [Hk | Hk]; destruct (Z.ltb_spec (lo + Z.of_nat k) (len l)) as [Hh | Hh];
    try reflexivity.
  - f_equal. lia.
  - lia.
  - lia.
Qed.

Lemma slice_all l : slice 0 None l = l.
Proof.
  unfold slice, adjust, len. cbn.
  rewrite Z.min_l by lia. cbn.
  rewrite Z.sub_0_r, Nat2Z.id. apply firstn_all.
Qed.

End SliceFacts.

Lemma step_size_nonneg max_length : 2 <= max_length -> 0 <= step_size max_length.
Proof.
  intros H. unfold step_size, chunk_size. apply Z.div_pos; lia.
Qed.

(** C1. For every window, with [chunk_size = max_length - 2] and
    [step = floor(chunk_size / 3)], the offsets that [predict] keeps are
    exactly those of the four-way table: the [k]-th kept token is the token at
    offset [lo + k] of the window as long as [lo + k < hi], where [(lo, hi)]
    is [(0, n)], [(0, 2*step)], [(step, n)] or [(step, 2*step)] according to
    whether the window is first and/or last of its document ([n] is the
    length of the window). *)
Theorem trusted_range_four_way_rule {A} (max_length : Z) (first last : bool)
  (l : list A) (k : nat) :
  2 <= max_length ->
  step_size max_length = (max_length - 2) / 3 /\
  trusted_range max_length first last =
    (match first, last with
     | true, true => (0, None)
     | true, false => (0, Some (2 * step_size max_length))
     | false, true => (step_size max_length, None)
     | false, false => (step_size max_length, Some (2 * step_size max_length))
     end) /\
  let '(lo, hi) := spec_range max_length first last (len l) in
  nth_error (trusted_slice max_length first last l) k =
  if (lo + Z.of_nat k <? hi) && (lo + Z.of_nat k <? len l)
  then nth_error l (Z.to_nat (lo + Z.of_nat k)) else None.
Proof.
  intros Hml. pose proof (step_size_nonneg max_length Hml) as Hs.
  split; [reflexivity |].
  split.
  - unfold trusted_range.
    destruct first, last; cbn;
      rewrite ?(Z.mul_comm (step_size max_length) 2); reflexivity.
  - unfold trusted_slice, trusted_range, spec_range.
    destruct first, last; cbn [negb].
    + rewrite nth_error_slice_open by lia. now rewrite andb_diag.
    + rewrite nth_error_slice_nonneg by lia.
      replace (step_size max_length * 2) with (2 * step_size max_length) by lia.
      destruct (Z.ltb_spec (0 + Z.of_nat k) (2 * step_size max_length));
        cbn [andb]; [| reflexivity].
      destruct (Z.ltb_spec (0 + Z.of_nat k) (len l)); [reflexivity |].
      apply nth_error_None. unfold len in *. lia.
    + rewrite nth_error_slice_open by lia. now rewrite andb_diag.
    + rewrite nth_error_slice_nonneg by lia.
      replace (step_size max_length * 2) with (2 * step_size max_length) by lia.
      destruct (Z.ltb_spec (step_size max_length + Z.of_nat k)
                  (2 * step_size max_length)); cbn [andb]; [| reflexivity].
      destruct (Z.ltb_spec (step_size max_length + Z.of_nat k) (len l));
        [reflexivity |].
      apply nth_error_None. unfold len in *. lia.
Qed.

Lemma trusted_range_four_way_rule_witness :
  2 <= 12 /\
  nth_error (trusted_slice 12 false false [10; 11; 12; 13; 14; 15; 16; 17; 18; 19]) 1
  = Some 14.
Proof.
  split; [lia |].
  pose proof (trusted_range_four_way_rule 12 false false
                [10; 11; 12; 13; 14; 15; 16; 17; 18; 19] 1 ltac:(lia)) as H.
  destruct H as [_ [_ H]]. exact H.
Defined.

(** ** Facts about the loop combinators *)

Lemma for_each_app {S A} (body : S -> A -> result S) (xs ys : list A) (st : S) :
  for_each body (xs ++ ys) st = (st' <- for_each body xs st ;; for_each body ys st').
Proof.
  revert st. induction xs as [| x xs IH]; intros st; cbn; [reflexivity |].
  destruct (body st x); cbn; [apply IH | reflexivity].
Qed.

Lemma zip3_app {A B C} (a1 a2 : list A) (b1 b2 : list B) (c1 c2 : list C) :
  List.length a1 = List.length b1 -> List.length b1 = List.length c1 ->
  zip3 (a1 ++ a2) (b1 ++ b2) (c1 ++ c2) = zip3 a1 b1 c1 ++ zip3 a2 b2 c2.
Proof.
  revert b1 c1. induction a1 as [| a a1 IH]; intros [| b b1] [| c c1];
    cbn; intros H1 H2; try discriminate; [reflexivity |].
  f_equal. apply IH; congruence.
Qed.

Lemma slice_spec {A} (l : list A) (lo hi : Z) :
  0 <= lo <= hi -> hi <= len l ->
  slice lo (Some hi) l = firstn (Z.to_nat (hi - lo)) (skipn (Z.to_nat lo) l).
Proof.
  intros H1 H2. unfold slice. rewrite !adjust_nonneg by lia.
  now rewrite !Z.min_l by lia.
Qed.

Lemma length_slice_spec {A} (l : list A) (lo hi : Z) :
  0 <= lo <= hi -> hi <= len l ->
  List.length (slice lo (Some hi) l) = Z.to_nat (hi - lo).
Proof.
  intros H1 H2. rewrite slice_spec by assumption.
  rewrite length_firstn, length_skipn. unfold len in H2. lia.
Qed.

(** Adjacent slices of one text concatenate to the slice of the union. *)
Lemma firstn_skipn_adjacent {A} (l : list A) (a m k : nat) :
  firstn m (skipn a l) ++ firstn k (skipn (a + m) l) = firstn (m + k) (skipn a l).
Proof.
  rewrite <- (firstn_skipn m (firstn (m + k) (skipn a l))).
  f_equal.
  - rewrite firstn_firstn. f_equal. lia.
  - rewrite skipn_firstn_comm, skipn_skipn. f_equal; [lia | f_equal; lia].
Qed.

(** ** The span finalizer *)

Lemma length_vadd (a b : list float) :
  List.length a = List.length b -> List.length (Np.vadd a b) = List.length a.
Proof.
  revert b. induction a as [| x a IH]; intros [| y b]; cbn; intros H;
    try discriminate; [reflexivity |].
  f_equal. apply IH. congruence.
Qed.

Lemma length_fold_vadd (rs : list (list float)) (r : list float) :
  Forall (fun v => List.length v = List.length r) rs ->
  List.length (fold_left Np.vadd rs r) = List.length r.
Proof.
  revert r. induction rs as [| v rs IH]; intros r Hall; cbn [fold_left];
    [reflexivity |].
  apply Forall_cons_iff in Hall as [Hv Hrs].
  assert (Hlen : List.length (Np.vadd r v) = List.length r)
    by (apply length_vadd; congruence).
  rewrite IH; [exact Hlen |]. now rewrite Hlen.
Qed.

Lemma vstack_ok (n : nat) (rows : list proba) :
  rows <> [] -> Forall (fun v => List.length v = n) rows ->
  Np.vstack rows = Ok rows.
Proof.
  intros Hne Hall. destruct rows as [| r rs]; [congruence |].
  apply Forall_cons_iff in Hall as [Hr Hrs].
  unfold Np.vstack.
  replace (forallb _ rs) with true; [reflexivity |].
  symmetry. apply forallb_forall. intros v Hv.
  apply Nat.eqb_eq. rewrite Forall_forall in Hrs. rewrite Hr. now apply Hrs.
Qed.

Lemma length_mean_axis0 (n : nat) (rows : list proba) :
  rows <> [] -> Forall (fun v => List.length v = n) rows ->
  List.length (Np.mean_axis0 rows) = n.
Proof.
  intros Hne Hall. destruct rows as [| r rs]; [congruence |].
  apply Forall_cons_iff in Hall as [Hr Hrs].
  unfold Np.mean_axis0. rewrite length_map, length_fold_vadd; [exact Hr |].
  now rewrite Hr.
Qed.

Lemma prob_dict_single_label (pad_token : string) (classes_ : list label)
  (n : nat) (prob_seq : list proba) :
  prob_seq <> [] -> Forall (fun v => List.length v = n) prob_seq ->
  prob_dict false pad_token classes_ prob_seq =
  Ok (Dict.of_pairs (combine classes_ (Np.mean_axis0 prob_seq))).
Proof.
  intros Hne Hall. unfold prob_dict.
  rewrite (vstack_ok n prob_seq Hne Hall). reflexivity.
Qed.

(** The mean of one, two and three rows, entry by entry. *)
Lemma vadd_combine (a b : list float) :
  Np.vadd a b = map (fun '(x, y) => (x + y)%float) (combine a b).
Proof.
  revert b. induction a as [| x a IH]; intros [| y b]; cbn [Np.vadd combine map];
    try reflexivity.
  now rewrite IH.
Qed.

Lemma mean_axis0_one (a : list float) :
  Np.mean_axis0 [a] = map (fun x => (x / 1)%float) a.
Proof. reflexivity. Qed.

Lemma mean_axis0_two (a b : list float) :
  Np.mean_axis0 [a; b]
  = map (fun '(x, y) => ((x + y) / 2)%float) (combine a b).
Proof.
  unfold Np.mean_axis0. cbn [fold_left]. rewrite vadd_combine, map_map.
  apply map_ext. intros [x y]. reflexivity.
Qed.

Lemma zip3_combine {A B C} (a : list A) (b : list B) (c : list C) :
  combine (combine a b) c = zip3 a b c.
Proof.
  revert b c. induction a as [| x a IH]; intros [| y b] [| z c];
    cbn [combine zip3]; try reflexivity.
  now rewrite IH.
Qed.

Lemma combine_map_l {A B C} (f : A -> B) (l : list A) (c : list C) :
  combine (map f l) c = map (fun p => (f (fst p), snd p)) (combine l c).
Proof.
  revert c. induction l as [| x l IH]; intros [| z c]; cbn [map combine fst snd];
    try reflexivity.
  now rewrite IH.
Qed.

Lemma mean_axis0_three (a b c : list float) :
  Np.mean_axis0 [a; b; c]
  = map (fun '(x, y, z) => ((x + y + z) / 3)%float) (zip3 a b c).
Proof.
  unfold Np.mean_axis0. cbn [fold_left].
  rewrite (vadd_combine (Np.vadd a b)), (vadd_combine a b), map_map.
  rewrite combine_map_l, map_map, zip3_combine.
  apply map_ext. intros [[x y] z]. reflexivity.
Qed.

(** ** Dictionaries built from distinct keys *)

Lemma Dict_set_fresh {V} (k : string) (v : V) (d : Dict.t V) :
  ~ In k (map fst d) -> Dict.set k v d = d ++ [(k, v)].
Proof.
  induction d as [| [k' v'] d IH]; intros H; [reflexivity |].
  cbn [Dict.set]. destruct (String.eqb_spec k k') as [-> | Hne].
  - exfalso. apply H. now left.
  - cbn [app]. f_equal. apply IH. intros Hin. apply H. now right.
Qed.

Lemma Dict_of_pairs_from {V} (l : list (string * V)) (acc : Dict.t V) :
  NoDup (map fst (acc ++ l)) ->
  fold_left (fun d kv => Dict.set (fst kv) (snd kv) d) l acc = acc ++ l.
Proof.
  revert acc. induction l as [| [k v] l IH]; intros acc H; cbn [fold_left].
  - now rewrite app_nil_r.
  - cbn [fst snd]. rewrite Dict_set_fresh.
    + rewrite IH; rewrite <- app_assoc; [reflexivity | exact H].
    + rewrite map_app in H. cbn [map fst] in H.
      apply NoDup_remove_2 in H. intros Hin. apply H, in_or_app. now left.
Qed.

(** With distinct keys [dict(zip(keys, values))] keeps the pairs as they
    come. *)
Lemma Dict_of_pairs_nodup {V} (l : list (string * V)) :
  NoDup (map fst l) -> Dict.of_pairs l = l.
Proof. intros H. unfold Dict.of_pairs. now rewrite Dict_of_pairs_from. Qed.

Lemma map_fst_combine {A B} (a : list A) (b : list B) :
  List.length a = List.length b -> map fst (combine a b) = a.
Proof.
  revert b. induction a as [| x a IH]; intros [| y b] H; cbn in *;
    try discriminate; [reflexivity |].
  f_equal. apply IH. congruence.
Qed.

Lemma NoDup_fst_combine {A B} (a : list A) (b : list B) :
  NoDup a -> NoDup (map fst (combine a b)).
Proof.
  revert b. induction a as [| x a IH]; intros [| y b] H; cbn [combine map fst];
    try constructor.
  - intros Hin. apply in_map_iff in Hin as [[x' y'] [E Hin]].
    cbn [fst] in E. subst x'. apply in_combine_l in Hin.
    now apply NoDup_cons_iff in H.
  - apply IH. now apply NoDup_cons_iff in H.
Qed.

Lemma Dict_of_pairs_classes {V} (classes_ : list label) (vs : list V) :
  NoDup classes_ ->
  Dict.of_pairs (combine classes_ vs) = combine classes_ vs.
Proof. intros H. now apply Dict_of_pairs_nodup, NoDup_fst_combine. Qed.

(** ** Span merging inside one window *)

Ltac py_eval :=
  try change (Pos.to_nat 1) with 1%nat;
  try change (Pos.to_nat 2) with 2%nat;
  cbn -[slice firstn skipn String.eqb prob_dict trusted_slice
        Np.mean_axis0 Dict.of_pairs].

Ltac py_step :=
  try change (Pos.to_nat 1) with 1%nat;
  try change (Pos.to_nat 2) with 2%nat;
  cbn -[slice firstn skipn String.eqb prob_dict trusted_slice Z.eqb
        first_token_id finalize token_body Np.mean_axis0 Dict.of_pairs].

(** C4. A single window that is first and last of its document, with labels
    [A, A, B, B, B, A] and end offsets [2, 4, 6, 8, 10, 12] over a text of at
    least 12 characters, reconciles to exactly three spans labelled
    [A, B, A] whose texts are the characters [0,4), [4,10) and [10,12) of the
    document.  With distinct classes, each span's probability dictionary
    pairs the classes, in their order, with the elementwise arithmetic mean
    of the probability vectors of the tokens merged into it, computed in
    binary64: the entries are added in token order and the sum is divided
    by the number of tokens, [(a + b) / 2] for the first, [(a + b + c) / 3]
    for the second and [a / 1] for the third span. *)
Theorem span_merge_single_window {char} (max_length : Z) (pad_token : string)
  (classes_ : list label) (ENCODER_start : Z)
  (x : list char) (ids : list Z) (toks : list (list Z))
  (A B : label) (p1 p2 p3 p4 p5 p6 : proba) (n : nat) :
  A <> B -> 12 <= len x ->
  Forall (fun p => List.length p = n) [p1; p2; p3; p4; p5; p6] ->
  NoDup classes_ ->
  reconcile max_length false pad_token classes_ ENCODER_start [x]
    [{| token_ids := (ENCODER_start :: ids) :: toks;
        char_locs := [2; 4; 6; 8; 10; 12] |}]
    [[A; A; B; B; B; A]] [[p1; p2; p3; p4; p5; p6]] =
  Ok ([[firstn 4 x; firstn 6 (skipn 4 x); firstn 2 (skipn 10 x)]],
      [[A; B; A]],
      [[combine classes_
          (map (fun '(a, b) => ((a + b) / 2)%float) (combine p1 p2));
        combine classes_
          (map (fun '(a, b, c) => ((a + b + c) / 3)%float) (zip3 p3 p4 p5));
        combine classes_
          (map (fun a => (a / 1)%float) p6)]]).
Proof.
  intros HAB Hlen Hall Hnd.
  assert (HAB' : String.eqb A B = false) by now apply String.eqb_neq.
  assert (HBA : String.eqb B A = false)
    by (apply String.eqb_neq; congruence).
  unfold reconcile, chunk_body, first_token_id.
  py_step. rewrite Z.eqb_refl.
  unfold trusted_slice. cbn [trusted_range negb]. rewrite !slice_all.
  repeat (rewrite ?String.eqb_refl, ?HAB', ?HBA; py_eval).
  repeat match goal with
  | H : Forall _ (_ :: _) |- _ => inversion H; clear H; subst
  end.
  rewrite !(prob_dict_single_label _ _ (List.length p1))
    by (try discriminate; repeat constructor; congruence).
  py_eval.
  rewrite !Dict_of_pairs_classes by assumption.
  rewrite mean_axis0_one, mean_axis0_two, mean_axis0_three.
  rewrite !slice_spec by lia.
  repeat match goal with
  | |- context [Z.to_nat ?z] =>
      let v := eval vm_compute in (Z.to_nat z) in change (Z.to_nat z) with v
  end.
  pose proof (firstn_skipn_adjacent x 0 2 2) as E1.
  pose proof (firstn_skipn_adjacent x 4 2 2) as E2.
  pose proof (firstn_skipn_adjacent x 4 4 2) as E3.
  cbn [Nat.add] in E1, E2, E3. rewrite E1, E2, E3.
  reflexivity.
Qed.

(** Tokens 3, 4 and 5 carry the vectors [0, 0, 1], [0, 0, 1] and [0, 1, 0]:
    the second span gets [0.3333333333333333] for class [A] and
    [0.6666666666666666] for class [B], the binary64 numbers next to 1/3
    and 2/3. *)
Lemma span_merge_single_window_witness :
  reconcile 12 false "<PAD>" ["<PAD>"; "A"; "B"]%string 7
    [[0; 1; 2; 3; 4; 5; 6; 7; 8; 9; 10; 11; 12]]
    [{| token_ids := [[7; 0]; [40; 1]]; char_locs := [2; 4; 6; 8; 10; 12] |}]
    [["A"; "A"; "B"; "B"; "B"; "A"]%string]
    [[[0; 1; 0]; [0; 1; 0]; [0; 0; 1]; [0; 0; 1]; [0; 1; 0]; [0; 1; 0]]%float] =
  Ok ([[[0; 1; 2; 3]; [4; 5; 6; 7; 8; 9]; [10; 11]]],
      [["A"; "B"; "A"]%string],
      [[[("<PAD>", 0); ("A", 1); ("B", 0)]%string%float;
        [("<PAD>", 0); ("A", 0x1.5555555555555p-2); ("B", 0x1.5555555555555p-1)]%string%float;
        [("<PAD>", 0); ("A", 1); ("B", 0)]%string%float]]).
Proof.
  apply (span_merge_single_window 12 "<PAD>" ["<PAD>"; "A"; "B"]%string 7
           [0; 1; 2; 3; 4; 5; 6; 7; 8; 9; 10; 11; 12] [0] [[40; 1]]
           "A"%string "B"%string
           [0; 1; 0]%float [0; 1; 0]%float [0; 0; 1]%float
           [0; 0; 1]%float [0; 1; 0]%float [0; 1; 0]%float 3%nat).
  - discriminate.
  - vm_compute. discriminate.
  - repeat constructor.
  - repeat constructor; cbn; intuition discriminate.
Defined.

(** ** The reconciliation loop does not fail on well-shaped input *)

Lemma Forall_slice {A} (P : A -> Prop) (lo : Z) (hi : option Z) (l : list A) :
  Forall P l -> Forall P (slice lo hi l).
Proof.
  intros H. unfold slice.
  set (a := Z.to_nat _). set (b := Z.to_nat _).
  assert (Hs : Forall P (skipn b l)).
  { rewrite <- (firstn_skipn b l) in H. now apply Forall_app in H. }
  rewrite <- (firstn_skipn a (skipn b l)) in Hs. now apply Forall_app in Hs.
Qed.

Lemma Forall_trusted_slice {A} (P : A -> Prop) max_length first last (l : list A) :
  Forall P l -> Forall P (trusted_slice max_length first last l).
Proof.
  intros H. unfold trusted_slice.
  destruct (trusted_range max_length first last). now apply Forall_slice.
Qed.

Lemma Forall_zip3 {A B C} (P : C -> Prop) (a : list A) (b : list B) (c : list C) :
  Forall P c -> Forall (fun t => P (snd t)) (zip3 a b c).
Proof.
  revert b c. induction a as [| x a IH]; intros [| y b] [| z c] H;
    cbn; try constructor.
  - inversion H; assumption.
  - inversion H; subst. now apply IH.
Qed.

Lemma getitem_last {A} (l : list A) (a : A) : getitem (l ++ [a]) (-1) = Ok a.
Proof.
  unfold getitem, len. rewrite length_app. cbn [List.length Z.ltb Z.compare].
  destruct (Z.ltb_spec (-1 + Z.of_nat (List.length l + 1)) 0); [lia |].
  replace (Z.to_nat (-1 + Z.of_nat (List.length l + 1))) with (List.length l + 0)%nat
    by lia.
  now rewrite nth_error_app2, Nat.add_comm, Nat.add_sub by lia.
Qed.

Lemma update_last_snoc {A} (f : A -> A) (l : list A) (a : A) :
  update_last f (l ++ [a]) = Ok (l ++ [f a]).
Proof.
  unfold update_last. rewrite rev_app_distr. cbn. now rewrite rev_involutive.
Qed.

Lemma snoc_of_length {A} (l : list A) :
  (0 < List.length l)%nat -> exists l' a, l = l' ++ [a].
Proof.
  intros H. destruct (exists_last (l := l)) as [l' [a ->]]; [| eauto].
  intros ->. cbn in H. lia.
Qed.

Section TokenLoop.

Context {char : Type}.
Variable n : nat.
Variable x : list char.

Lemma span_invariant_new_span (subs : list (list char)) (labs : list label)
  (probs : list (list proba)) (sot : Z) (piece : list char)
  (lab : label) (pr : proba) (pos : Z) :
  span_invariant n {| doc_subseqs := subs; doc_labels := labs;
                      doc_probs := probs; start_of_token := sot |} ->
  List.length pr = n ->
  span_invariant n {| doc_subseqs := subs ++ [piece];
                      doc_labels := labs ++ [lab];
                      doc_probs := probs ++ [[pr]];
                      start_of_token := pos |}.
Proof.
  intros (H1 & H2 & H3) Hpr. unfold span_invariant in *. cbn in *.
  rewrite !length_app. cbn. repeat split; try lia.
  apply Forall_app. split; [exact H3 |].
  repeat constructor; [discriminate | exact Hpr].
Qed.

Lemma token_body_ok (d : doc_state) (tok : label * Z * proba) :
  span_invariant n d -> List.length (snd tok) = n ->
  exists d', token_body [x] 0 (Some d) tok = Ok (Some d') /\ span_invariant n d'.
Proof.
  intros Hinv Hpr. destruct tok as [[lab pos] pr]. cbn [snd] in Hpr.
  destruct d as [subs labs probs sot].
  unfold token_body. destruct (pos =? -1); [now eexists |].
  cbn [doc_subseqs doc_labels doc_probs start_of_token].
  destruct subs as [| s subs].
  - cbn. eexists. split; [reflexivity |].
    now apply (span_invariant_new_span [] labs probs sot).
  - pose proof Hinv as (H1 & H2 & H3). cbn in H1, H2, H3.
    destruct (snoc_of_length labs) as (labs' & a & ->); [lia |].
    rewrite getitem_last. cbn [bind].
    destruct (negb (String.eqb lab a)).
    + cbn. eexists. split; [reflexivity |].
      now apply (span_invariant_new_span (s :: subs) (labs' ++ [a]) probs sot).
    + destruct (snoc_of_length (s :: subs)) as (ss & s' & Hss);
        [cbn; lia |].
      destruct (snoc_of_length probs) as (pss & ps & ->); [lia |].
      cbn [getitem bind Z.ltb Z.compare Z.to_nat nth_error].
      pose proof (f_equal (@List.length _) Hss) as HL.
      rewrite Hss, !update_last_snoc. cbn [bind].
      eexists. split; [reflexivity |].
      unfold span_invariant. cbn.
      rewrite !length_app in *. cbn [List.length] in *.
      repeat split; try lia.
      apply Forall_app in H3. destruct H3 as [H3 H4].
      apply Forall_app. split; [exact H3 |].
      apply Forall_cons_iff in H4 as [[Hne Hps] _].
      constructor; [| constructor]. split.
      * intros E. now apply app_eq_nil in E.
      * apply Forall_app. split; [exact Hps | now constructor].
Qed.

Lemma token_loop_ok (toks : list (label * Z * proba)) (d : doc_state) :
  span_invariant n d -> Forall (fun t => List.length (snd t) = n) toks ->
  exists d', for_each (token_body [x] 0) toks (Some d) = Ok (Some d')
             /\ span_invariant n d'.
Proof.
  revert d. induction toks as [| tok toks IH]; intros d Hinv Hall.
  - exists d. now split.
  - apply Forall_cons_iff in Hall as [Htok Htoks].
    destruct (token_body_ok d tok Hinv Htok) as (d1 & E1 & Hinv1).
    cbn [for_each]. rewrite E1. cbn [bind]. now apply IH.
Qed.

Lemma finalize_loop_ok (pad_token : string) (classes_ : list label)
  (pss : list (list proba)) (acc : list (Dict.t float)) :
  Forall (fun ps => ps <> [] /\ Forall (fun v : proba => List.length v = n) ps) pss ->
  for_each (fun prob_dicts prob_seq =>
              pd <- prob_dict false pad_token classes_ prob_seq ;;
              Ok (prob_dicts ++ [pd])) pss acc =
  Ok (acc ++ map (fun ps => Dict.of_pairs
                              (combine classes_ (Np.mean_axis0 ps))) pss).
Proof.
  revert acc. induction pss as [| ps pss IH]; intros acc Hall; cbn [for_each map].
  - now rewrite app_nil_r.
  - apply Forall_cons_iff in Hall as [[Hne Hps] Hrest].
    rewrite (prob_dict_single_label _ _ n) by assumption. cbn [bind].
    rewrite IH by assumption. now rewrite <- app_assoc.
Qed.

Lemma finalize_ok (pad_token : string) (classes_ : list label)
  (d : @doc_state char) :
  span_invariant n d ->
  finalize false pad_token classes_ d =
  Ok (map (fun ps => Dict.of_pairs (combine classes_ (Np.mean_axis0 ps)))
          (doc_probs d)).
Proof.
  intros (_ & _ & H). unfold finalize. now rewrite finalize_loop_ok.
Qed.

(** A window that is first and last of its document reconciles without an
    exception when all its probability vectors have one dimension. *)
Lemma reconcile_single_window_ok (max_length : Z) (pad_token : string)
  (classes_ : list label) (ENCODER_start : Z) (w : ArrayEncodedOutput)
  (l : list label) (p : list proba) :
  first_token_id w = Ok ENCODER_start ->
  Forall (fun v : proba => List.length v = n) p ->
  exists spans,
    reconcile max_length false pad_token classes_ ENCODER_start [x] [w] [l] [p]
    = Ok spans.
Proof.
  intros Hw Hp. unfold reconcile, chunk_body.
  py_step. rewrite Hw. py_step. rewrite Z.eqb_refl. py_step.
  destruct (token_loop_ok
              (zip3 (trusted_slice max_length true true l)
                    (trusted_slice max_length true true (char_locs w))
                    (trusted_slice max_length true true p))
              {| doc_subseqs := []; doc_labels := []; doc_probs := [];
                 start_of_token := 0 |}) as (d' & E & Hinv).
  - unfold span_invariant. cbn. auto.
  - apply (Forall_zip3 (fun v : proba => List.length v = n)).
    now apply Forall_trusted_slice.
  - rewrite E. cbn [bind]. rewrite (finalize_ok _ _ _ Hinv). cbn [bind].
    eexists. reflexivity.
Qed.

End TokenLoop.

(** ** Stitching the trusted parts of three windows *)

Section Stitching.

Context {char : Type}.
Variable max_length : Z.
Variable multi_label : bool.
Variable pad_token : string.
Variable classes_ : list label.
Variable ENCODER_start : Z.

Lemma stitching_any_max_length (x : list char) (w1 w2 w3 : ArrayEncodedOutput)
  (l1 l2 l3 : list label) (p1 p2 p3 : list proba) (t2 t3 : Z) :
  first_token_id w1 = Ok ENCODER_start ->
  first_token_id w2 = Ok t2 -> t2 <> ENCODER_start ->
  first_token_id w3 = Ok t3 -> t3 <> ENCODER_start ->
  same_length3 (trusted_slice max_length true false l1)
               (trusted_slice max_length true false (char_locs w1))
               (trusted_slice max_length true false p1) ->
  same_length3 (trusted_slice max_length false false l2)
               (trusted_slice max_length false false (char_locs w2))
               (trusted_slice max_length false false p2) ->
  reconcile max_length multi_label pad_token classes_ ENCODER_start [x]
    [w1; w2; w3] [l1; l2; l3] [p1; p2; p3] =
  reconcile max_length multi_label pad_token classes_ ENCODER_start [x]
    [stitched_window max_length w1 w2 w3]
    [stitched max_length l1 l2 l3] [stitched max_length p1 p2 p3].
Proof.
  intros Hw1 Hw2 Ht2 Hw3 Ht3 [Ha1 Hb1] [Ha2 Hb2].
  apply Z.eqb_neq in Ht2, Ht3.
  assert (Hs : first_token_id (stitched_window max_length w1 w2 w3)
               = Ok ENCODER_start) by exact Hw1.
  unfold reconcile, chunk_body. py_step.
  cbn [stitched_window char_locs].
  do 6 (rewrite ?Hw1, ?Hw2, ?Hw3, ?Hs, ?Z.eqb_refl, ?Ht2, ?Ht3; py_step).
  change (trusted_slice max_length true true ?l) with (slice 0 None l).
  rewrite !slice_all. unfold stitched.
  rewrite zip3_app by assumption. rewrite zip3_app by assumption.
  rewrite for_each_app.
  destruct (for_each (token_body [x] 0) _ _) as [od1 | e1]; cbn [bind];
    [| reflexivity].
  cbn [doc doc_idx all_subseqs all_labels all_probs].
  rewrite for_each_app.
  destruct (for_each (token_body [x] 0) _ od1) as [od2 | e2]; cbn [bind];
    [| reflexivity].
  cbn [doc doc_idx all_subseqs all_labels all_probs].
  destruct (for_each (token_body [x] 0) _ od2) as [[d |] | e3]; cbn [bind];
    reflexivity.
Qed.

End Stitching.

Lemma length_slice_6 {A} (l : list A) :
  6 <= len l -> List.length (slice 0 (Some 6) l) = 6%nat.
Proof. intros H. now rewrite length_slice_spec by lia. Qed.

Lemma length_slice_3_6 {A} (l : list A) :
  6 <= len l -> List.length (slice 3 (Some 6) l) = 3%nat.
Proof. intros H. now rewrite length_slice_spec by lia. Qed.

(** C3. For [max_length = 12] (chunk size 10, step 3), a document presented
    as a first, a middle and a last window reconciles to exactly the spans
    (texts, labels, probability dictionaries) that the same loop produces
    when it runs once over a single window made of the three trusted thirds
    [0:6], [3:6] and [3:] put end to end; with probability vectors of one
    dimension both runs return these spans without an exception. *)
Theorem stitching_three_windows {char} (multi_label : bool)
  (pad_token : string) (classes_ : list label) (ENCODER_start : Z)
  (x : list char) (w1 w2 w3 : ArrayEncodedOutput)
  (l1 l2 l3 : list label) (p1 p2 p3 : list proba) (t2 t3 : Z) (n : nat) :
  first_token_id w1 = Ok ENCODER_start ->
  first_token_id w2 = Ok t2 -> t2 <> ENCODER_start ->
  first_token_id w3 = Ok t3 -> t3 <> ENCODER_start ->
  6 <= len l1 -> 6 <= len (char_locs w1) -> 6 <= len p1 ->
  6 <= len l2 -> 6 <= len (char_locs w2) -> 6 <= len p2 ->
  Forall (fun v : proba => List.length v = n) (p1 ++ p2 ++ p3) ->
  let three_windows :=
    reconcile 12 multi_label pad_token classes_ ENCODER_start [x]
      [w1; w2; w3] [l1; l2; l3] [p1; p2; p3] in
  let single_pass :=
    reconcile 12 multi_label pad_token classes_ ENCODER_start [x]
      [{| token_ids := token_ids w1;
          char_locs := slice 0 (Some 6) (char_locs w1)
                       ++ slice 3 (Some 6) (char_locs w2)
                       ++ slice 3 None (char_locs w3) |}]
      [slice 0 (Some 6) l1 ++ slice 3 (Some 6) l2 ++ slice 3 None l3]
      [slice 0 (Some 6) p1 ++ slice 3 (Some 6) p2 ++ slice 3 None p3] in
  chunk_size 12 = 10 /\ step_size 12 = 3 /\
  three_windows = single_pass /\
  (multi_label = false -> exists spans, three_windows = Ok spans).
Proof.
  intros Hw1 Hw2 Ht2 Hw3 Ht3 Hl1 Hc1 Hp1 Hl2 Hc2 Hp2 Hall.
  cbv zeta.
  assert (E : reconcile 12 multi_label pad_token classes_ ENCODER_start [x]
                [w1; w2; w3] [l1; l2; l3] [p1; p2; p3] =
              reconcile 12 multi_label pad_token classes_ ENCODER_start [x]
                [stitched_window 12 w1 w2 w3]
                [stitched 12 l1 l2 l3] [stitched 12 p1 p2 p3]).
  { apply (stitching_any_max_length 12 multi_label pad_token classes_
             ENCODER_start x w1 w2 w3 l1 l2 l3 p1 p2 p3 t2 t3);
      try assumption.
    - change (same_length3 (slice 0 (Some 6) l1)
                (slice 0 (Some 6) (char_locs w1)) (slice 0 (Some 6) p1)).
      split; rewrite !length_slice_6 by assumption; reflexivity.
    - change (same_length3 (slice 3 (Some 6) l2)
                (slice 3 (Some 6) (char_locs w2)) (slice 3 (Some 6) p2)).
      split; rewrite !length_slice_3_6 by assumption; reflexivity. }
  split; [reflexivity |]. split; [reflexivity |]. split; [exact E |].
  intros ->. rewrite E.
  apply (reconcile_single_window_ok n); [exact Hw1 |].
  apply Forall_app in Hall as [H1 H23]. apply Forall_app in H23 as [H2 H3].
  unfold stitched. repeat (apply Forall_app; split);
    now apply Forall_trusted_slice.
Qed.

Lemma stitching_three_windows_witness :
  reconcile 12 false "<PAD>" ["A"; "B"]%string 7 [Ex3.x]
    [Ex3.w1; Ex3.w2; Ex3.w3] [Ex3.l1; Ex3.l2; Ex3.l3] [Ex3.p; Ex3.p; Ex3.p] =
  reconcile 12 false "<PAD>" ["A"; "B"]%string 7 [Ex3.x]
    [{| token_ids := token_ids Ex3.w1;
        char_locs := slice 0 (Some 6) (char_locs Ex3.w1)
                     ++ slice 3 (Some 6) (char_locs Ex3.w2)
                     ++ slice 3 None (char_locs Ex3.w3) |}]
    [slice 0 (Some 6) Ex3.l1 ++ slice 3 (Some 6) Ex3.l2 ++ slice 3 None Ex3.l3]
    [slice 0 (Some 6) Ex3.p ++ slice 3 (Some 6) Ex3.p ++ slice 3 None Ex3.p].
Proof.
  refine (proj1 (proj2 (proj2
            (stitching_three_windows false "<PAD>" ["A"; "B"]%string 7 Ex3.x
               Ex3.w1 Ex3.w2 Ex3.w3 Ex3.l1 Ex3.l2 Ex3.l3 Ex3.p Ex3.p Ex3.p
               43 46 2 _ _ _ _ _ _ _ _ _ _ _ _)))).
  - reflexivity.
  - reflexivity.
  - discriminate.
  - reflexivity.
  - discriminate.
  - vm_compute; discriminate.
  - vm_compute; discriminate.
  - vm_compute; discriminate.
  - vm_compute; discriminate.
  - vm_compute; discriminate.
  - vm_compute; discriminate.
  - repeat constructor.
Defined.

(** The three windows of the witness give the spans [0,6), [6,9), [9,16)
    with the labels of the three trusted thirds. *)
Example stitching_example_spans :
  match
    reconcile 12 false "<PAD>" ["A"; "B"]%string 7 [Ex3.x]
      [Ex3.w1; Ex3.w2; Ex3.w3] [Ex3.l1; Ex3.l2; Ex3.l3] [Ex3.p; Ex3.p; Ex3.p]
  with
  | Ok (subseqs, labels, _) =>
      subseqs = [[[0; 1; 2; 3; 4; 5]; [6; 7; 8]; [9; 10; 11; 12; 13; 14; 15]]]
      /\ labels = [["A"; "B"; "C"]%string]
  | Raise _ => False
  end.
Proof. vm_compute. split; reflexivity. Qed.

(** ** Coverage of the document positions by the trusted ranges *)

Lemma Zrange_nil (a b : Z) : b <= a -> Zrange a b = [].
Proof.
  intros H. unfold Zrange. now replace (Z.to_nat (b - a)) with O by lia.
Qed.

Lemma Zrange_cons (a b : Z) : a < b -> Zrange a b = a :: Zrange (a + 1) b.
Proof.
  intros H. unfold Zrange.
  replace (Z.to_nat (b - a)) with (S (Z.to_nat (b - (a + 1)))) by lia.
  cbn [seq map]. f_equal; [lia |].
  rewrite <- seq_shift, map_map. apply map_ext. intros j. lia.
Qed.

Lemma length_Zrange (a b : Z) : List.length (Zrange a b) = Z.to_nat (b - a).
Proof. unfold Zrange. now rewrite length_map, length_seq. Qed.

Lemma In_Zrange (a b p : Z) : In p (Zrange a b) <-> a <= p < b.
Proof.
  unfold Zrange. rewrite in_map_iff. split.
  - intros (j & <- & Hj). apply in_seq in Hj. lia.
  - intros H. exists (Z.to_nat (p - a)). split; [lia |]. apply in_seq. lia.
Qed.

Lemma firstn_Zrange (k : nat) (a b : Z) :
  a + Z.of_nat k <= b -> firstn k (Zrange a b) = Zrange a (a + Z.of_nat k).
Proof.
  revert a. induction k as [| k IH]; intros a H.
  - cbn [firstn]. symmetry. apply Zrange_nil. lia.
  - rewrite (Zrange_cons a b), (Zrange_cons a (a + Z.of_nat (S k))) by lia.
    cbn [firstn]. f_equal. rewrite IH by lia. f_equal. lia.
Qed.

Lemma skipn_Zrange (k : nat) (a b : Z) :
  a + Z.of_nat k <= b -> skipn k (Zrange a b) = Zrange (a + Z.of_nat k) b.
Proof.
  revert a. induction k as [| k IH]; intros a H.
  - cbn [skipn]. f_equal. lia.
  - destruct (Z.eq_dec a b) as [-> | Hne]; [lia |].
    rewrite (Zrange_cons a b) by lia. cbn [skipn].
    rewrite IH by lia. f_equal. lia.
Qed.

Lemma Zrange_app (a b c : Z) :
  a <= b <= c -> Zrange a b ++ Zrange b c = Zrange a c.
Proof.
  intros H.
  replace b with (a + Z.of_nat (Z.to_nat (b - a))) by lia.
  rewrite <- (firstn_Zrange _ a c), <- (skipn_Zrange _ a c) by lia.
  apply firstn_skipn.
Qed.

Lemma NoDup_Zrange (a b : Z) : NoDup (Zrange a b).
Proof.
  remember (Z.to_nat (b - a)) as m eqn:Hm. revert a Hm.
  induction m as [| m IH]; intros a Hm.
  - rewrite Zrange_nil by lia. constructor.
  - rewrite Zrange_cons by lia. constructor.
    + rewrite In_Zrange. lia.
    + apply IH. lia.
Qed.

(** The slices of the policy, taken on a run of consecutive positions. *)
Lemma slice_Zrange (lo hi a b : Z) :
  0 <= lo <= hi -> a + hi <= b ->
  slice lo (Some hi) (Zrange a b) = Zrange (a + lo) (a + hi).
Proof.
  intros H1 H2.
  rewrite slice_spec by (unfold len; rewrite ?length_Zrange; lia).
  rewrite skipn_Zrange, firstn_Zrange by lia. f_equal; lia.
Qed.

Lemma slice_open_Zrange (lo a b : Z) :
  0 <= lo -> a + lo <= b -> slice lo None (Zrange a b) = Zrange (a + lo) b.
Proof.
  intros H1 H2. unfold slice.
  assert (Hlen : len (Zrange a b) = b - a)
    by (unfold len; rewrite length_Zrange; lia).
  rewrite Hlen, adjust_nonneg, Z.min_l by lia.
  rewrite skipn_Zrange by lia.
  rewrite firstn_all2; [f_equal; lia |].
  rewrite length_Zrange. lia.
Qed.

Ltac unfold_trusted :=
  unfold trusted_positions, trusted_slice, trusted_range, window_positions;
  cbv beta iota zeta; cbn [negb]; cbv beta iota zeta.

Section Coverage.

Variable max_length : Z.
Variable N : Z.
Local Abbreviation step := (step_size max_length).
Hypothesis step_pos : 0 < step.

Lemma trusted_positions_first_only (w : Window) :
  trusted_positions max_length true true w = Zrange (w_start w) (w_end w).
Proof.
  unfold_trusted.
  apply slice_all.
Qed.

Lemma trusted_positions_first (w : Window) :
  2 * step <= w_end w - w_start w ->
  trusted_positions max_length true false w
  = Zrange (w_start w) (w_start w + 2 * step).
Proof.
  intros H. unfold_trusted.
  rewrite slice_Zrange by lia. f_equal; lia.
Qed.

Lemma trusted_positions_middle (w : Window) :
  2 * step <= w_end w - w_start w ->
  trusted_positions max_length false false w
  = Zrange (w_start w + step) (w_start w + 2 * step).
Proof.
  intros H. unfold_trusted.
  rewrite slice_Zrange by lia. f_equal; lia.
Qed.

Lemma trusted_positions_last (w : Window) :
  step <= w_end w - w_start w ->
  trusted_positions max_length false true w
  = Zrange (w_start w + step) (w_end w).
Proof.
  intros H. unfold_trusted.
  now rewrite slice_open_Zrange by lia.
Qed.

(** From a window that is not the first one on, the trusted ranges tile the
    document from [step] tokens into that window up to its end. *)
Lemma tail_windows_tile (ws : list Window) (w : Window) :
  strided step (w :: ws) = true ->
  overlapping step N (w :: ws) = true ->
  w_start w + step <= N ->
  List.concat (doc_trusted_positions max_length false (w :: ws))
  = Zrange (w_start w + step) N.
Proof.
  revert w. induction ws as [| w' ws IH]; intros w Hs Ho Hw.
  - cbn in Ho. apply Z.eqb_eq in Ho.
    cbn [doc_trusted_positions List.concat].
    rewrite trusted_positions_last, app_nil_r by lia. now rewrite Ho.
  - cbn [strided overlapping] in Hs, Ho.
    apply andb_prop in Hs as [Hs1 Hs2].
    apply andb_prop in Ho as [Ho Ho4]. apply andb_prop in Ho as [Ho Ho3].
    apply andb_prop in Ho as [Ho1 Ho2].
    apply Z.eqb_eq in Hs1. apply Z.ltb_lt in Ho1.
    apply Z.leb_le in Ho2, Ho3.
    change (doc_trusted_positions max_length false (w :: w' :: ws))
      with (trusted_positions max_length false false w
            :: doc_trusted_positions max_length false (w' :: ws)).
    cbn [List.concat]. rewrite IH by (assumption || lia).
    rewrite trusted_positions_middle by lia.
    rewrite Hs1. replace (w_start w + step + step) with (w_start w + 2 * step)
      by lia.
    apply Zrange_app. lia.
Qed.

Lemma all_windows_tile (ws : list Window) :
  starts_at_zero ws = true ->
  strided step ws = true ->
  overlapping step N ws = true ->
  List.concat (doc_trusted_positions max_length true ws) = Zrange 0 N.
Proof.
  destruct ws as [| w [| w' ws]]; intros H0 Hs Ho; [discriminate | |].
  - cbn in H0, Ho. apply Z.eqb_eq in H0, Ho.
    cbn [doc_trusted_positions List.concat].
    rewrite trusted_positions_first_only, app_nil_r. now rewrite H0, Ho.
  - cbn [starts_at_zero] in H0. apply Z.eqb_eq in H0.
    pose proof Hs as Hs'. pose proof Ho as Ho'.
    cbn [strided overlapping] in Hs, Ho.
    apply andb_prop in Hs as [Hs1 Hs2].
    apply andb_prop in Ho as [Ho Ho4]. apply andb_prop in Ho as [Ho Ho3].
    apply andb_prop in Ho as [Ho1 Ho2].
    apply Z.eqb_eq in Hs1. apply Z.ltb_lt in Ho1.
    apply Z.leb_le in Ho2, Ho3.
    change (doc_trusted_positions max_length true (w :: w' :: ws))
      with (trusted_positions max_length true false w
            :: doc_trusted_positions max_length false (w' :: ws)).
    cbn [List.concat].
    rewrite (tail_windows_tile ws w') by (assumption || lia).
    rewrite trusted_positions_first by lia.
    rewrite Hs1, H0. cbn [Z.add].
    replace (step + step) with (2 * step) by lia.
    apply Zrange_app. lia.
Qed.

End Coverage.

Lemma covers_In (p : Z) (l : list Z) : covers p l = true <-> In p l.
Proof.
  unfold covers. rewrite existsb_exists. split.
  - intros (q & Hq & E). apply Z.eqb_eq in E. now subst.
  - intros H. exists p. split; [exact H | apply Z.eqb_refl].
Qed.

Lemma filter_covers_none (p : Z) (tps : list (list Z)) :
  ~ In p (List.concat tps) -> filter (covers p) tps = [].
Proof.
  induction tps as [| t tps IH]; intros H; [reflexivity |].
  cbn [List.concat] in H. cbn [filter].
  destruct (covers p t) eqn:E.
  - apply covers_In in E. exfalso. apply H, in_or_app. now left.
  - apply IH. intros Hin. apply H, in_or_app. now right.
Qed.

Lemma NoDup_app_disjoint {A} (l r : list A) (a : A) :
  NoDup (l ++ r) -> In a l -> ~ In a r.
Proof.
  induction l as [| b l IH]; intros Hnd Hin; [contradiction |].
  cbn in Hnd. apply NoDup_cons_iff in Hnd as [Hb Hnd].
  destruct Hin as [-> | Hin].
  - intros Hr. apply Hb, in_or_app. now right.
  - now apply IH.
Qed.

(** When the trusted ranges put end to end hold no position twice, a
    position they hold lies in the trusted range of exactly one window. *)
Lemma covered_once (p : Z) (tps : list (list Z)) :
  NoDup (List.concat tps) -> In p (List.concat tps) ->
  List.length (filter (covers p) tps) = 1%nat.
Proof.
  induction tps as [| t tps IH]; intros Hnd Hin; [contradiction |].
  cbn [List.concat] in Hnd, Hin. cbn [filter].
  destruct (covers p t) eqn:E.
  - apply covers_In in E.
    rewrite filter_covers_none; [reflexivity |].
    now apply (NoDup_app_disjoint t).
  - apply IH.
    + now apply NoDup_app_remove_l in Hnd.
    + apply in_app_or in Hin as [Hin | Hin]; [| exact Hin].
      apply covers_In in Hin. congruence.
Qed.

(** C2, as amended. When the windows of a document start at position 0,
    each starts exactly [step] tokens after its predecessor and overlaps its
    successor by at least [2 * step] tokens, and the last one ends with the
    document ([step > 0]), every token position of the document, padding or
    not, lies in the trusted range of exactly one window. *)
Theorem coverage_exactly_once (max_length N : Z) (ws : list Window) (p : Z) :
  0 < step_size max_length ->
  starts_at_zero ws = true ->
  strided (step_size max_length) ws = true ->
  overlapping (step_size max_length) N ws = true ->
  0 <= p < N ->
  cover_count max_length ws p = 1%nat.
Proof.
  intros Hstep H0 Hs Ho Hp. unfold cover_count.
  pose proof (all_windows_tile max_length N Hstep ws H0 Hs Ho) as Htile.
  apply covered_once; rewrite Htile.
  - apply NoDup_Zrange.
  - apply In_Zrange. lia.
Qed.

Lemma coverage_exactly_once_witness :
  cover_count 12
    [{| w_start := 0; w_len := 10 |}; {| w_start := 3; w_len := 10 |};
     {| w_start := 6; w_len := 10 |}] 8 = 1%nat.
Proof.
  apply (coverage_exactly_once 12 16); try reflexivity. lia.
Defined.

(** Windows in left-to-right order that overlap by at least [2 * step]
    tokens need not start [step] tokens apart: with [max_length = 11]
    ([step = 3]) the windows [0,9), [1,10), [3,12) of a 12-token document
    put position 4 in two trusted ranges, and with [max_length = 12]
    ([step = 3]) the windows [0,10), [4,14), [8,18) of an 18-token document
    leave position 6 in none. *)
Lemma coverage_needs_stride :
  (0 < step_size 11
   /\ starts_at_zero [{| w_start := 0; w_len := 9 |};
                      {| w_start := 1; w_len := 9 |};
                      {| w_start := 3; w_len := 9 |}] = true
   /\ overlapping (step_size 11) 12
        [{| w_start := 0; w_len := 9 |}; {| w_start := 1; w_len := 9 |};
         {| w_start := 3; w_len := 9 |}] = true
   /\ cover_count 11
        [{| w_start := 0; w_len := 9 |}; {| w_start := 1; w_len := 9 |};
         {| w_start := 3; w_len := 9 |}] 4 = 2%nat)
  /\
  (0 < step_size 12
   /\ starts_at_zero [{| w_start := 0; w_len := 10 |};
                      {| w_start := 4; w_len := 10 |};
                      {| w_start := 8; w_len := 10 |}] = true
   /\ overlapping (step_size 12) 18
        [{| w_start := 0; w_len := 10 |}; {| w_start := 4; w_len := 10 |};
         {| w_start := 8; w_len := 10 |}] = true
   /\ cover_count 12
        [{| w_start := 0; w_len := 10 |}; {| w_start := 4; w_len := 10 |};
         {| w_start := 8; w_len := 10 |}] 6 = 0%nat).
Proof. vm_compute. repeat split; reflexivity. Qed.

(** ** The public operations *)

(** C10. For every input, [predict_proba] returns exactly what [predict]
    returns. *)
Theorem predict_proba_is_predict {char annotation : Type}
  (config : Config.Settings) (multi_label : bool)
  (text_to_ids : list (list char) -> list ArrayEncodedOutput)
  (inference : list (list char) -> list Pred)
  (inverse_transform : list Z -> list label)
  (classes_ : list label) (ENCODER_start : Z)
  (finetune_to_indico_sequence :
     list (list char) -> list (list (list char)) -> list (list label) ->
     list (list (Dict.t float)) -> bool -> list (list char) * list annotation)
  (X : list (list char)) :
  predict_proba config multi_label text_to_ids inference inverse_transform
    classes_ ENCODER_start finetune_to_indico_sequence X =
  predict config multi_label text_to_ids inference inverse_transform
    classes_ ENCODER_start finetune_to_indico_sequence X.
Proof. reflexivity. Qed.

(** ** Setup and the degenerate step *)

Lemma slice_empty {A} (l : list A) : slice 0 (Some 0) l = [].
Proof.
  unfold slice. rewrite adjust_nonneg by (unfold len; lia).
  rewrite Z.sub_diag. reflexivity.
Qed.

(** C8, as amended. A configuration with [step = 0] is not rejected by the
    setup of [Association]: unless the configuration is multi-label the
    setup returns whatever the setup of the base class returns.  [predict]
    then applies the trusted-range rule with [step = 0]: a window that is
    not the last of its document contributes no token, a last window
    contributes all its tokens. *)
Theorem step_zero_is_not_rejected {A} (config : Config.Settings)
  (BaseModel_initialize : Config.Settings -> result unit)
  (first last : bool) (l : list A) :
  step_size (Config.max_length config) = 0 ->
  Config.multi_label_sequences config = false ->
  _initialize config BaseModel_initialize = BaseModel_initialize config /\
  trusted_slice (Config.max_length config) first last l
  = if last then l else [].
Proof.
  intros Hstep Hml. split.
  - unfold _initialize. now rewrite Hml.
  - unfold trusted_slice, trusted_range. rewrite Hstep.
    destruct first, last; cbn [negb Z.mul];
      auto using slice_all, slice_empty.
Qed.

Lemma step_zero_is_not_rejected_witness :
  _initialize Ex8.config (fun _ => Ok tt) = Ok tt /\
  trusted_slice (Config.max_length Ex8.config) true false [1; 2] = [].
Proof.
  apply (step_zero_is_not_rejected Ex8.config (fun _ => Ok tt) true false [1; 2]);
    reflexivity.
Defined.

(** With [max_length = 4] the step is 0, the setup of [Association] raises
    nothing (the base setup accepting), and [predict] runs the loop: the
    labels of the first window are dropped and the whole text read so far is
    given the label of the last window. *)
Lemma step_zero_reaches_reconciliation :
  step_size (Config.max_length Ex8.config) = 0 /\
  _initialize Ex8.config (fun _ => Ok tt) = Ok tt /\
  predict Ex8.config false (fun _ => Ex8.windows) (fun _ => Ex8.preds)
    Ex8.inverse_transform ["A"; "B"]%string 7 Ex8.to_annotations [Ex8.x]
  = Ok [([0; 1; 2], "B"%string)].
Proof. vm_compute. repeat split; reflexivity. Qed.

(** ** Decoding *)

(** C5, as the code has it. [_predict_op] returns nothing: whatever the
    dictionary of logits, the transition matrix and the tensor operations
    are, the call ends in the [TypeError] of line 247, where ["association"]
    is looked up in the sequence tensor that line 246 has just bound to
    [logits].  No matrix of type ids and no matrix of confidences is
    produced. *)
Theorem predict_op_raises_before_decoding {T A P I : Type} (multi_label : bool)
  (sequence_decode : T -> T -> T * T) (tf_unstack_last : T -> list T)
  (tf_stack_last : list T -> T) (iterate : T -> list T)
  (drop_first_class : T -> T) (tf_softmax : A -> result P)
  (tf_argmax : A -> I) (logits : Heads T A) (transition_matrix : T) :
  _predict_op multi_label sequence_decode tf_unstack_last tf_stack_last
    iterate drop_first_class tf_softmax tf_argmax logits transition_matrix
  = Raise TypeError.
Proof. reflexivity. Qed.

(** ** Encoding *)

(** The index sequences reach [csr_matrix] as its shape: every labelled
    window ends in a [TypeError]. *)
Lemma encode_associations_invalid_shape
  (association_encoder_transform : list string -> list Z) (l : Labels) :
  encode_associations association_encoder_transform l = Raise TypeError.
Proof. reflexivity. Qed.

(** With labels the generator ends at its first window, in that
    [TypeError]; later windows are not reached. *)
Lemma labelled_generator_ends_at_first_window {XT YT : Type}
  (config : Config.Settings) (multi_label : bool)
  (_text_to_ids :
     Config.Settings -> XT -> option YT -> pad_arg -> list EncodedOutput)
  (association_encoder_transform : list string -> list Z)
  (label_encoder_transform : list label -> list Z) (X : XT) (Y : YT) :
  _text_to_ids config X (Some Y)
    (if multi_label then PadList [Config.pad_token config]
     else PadToken (Config.pad_token config)) <> [] ->
  text_to_tokens_mask config multi_label _text_to_ids
    association_encoder_transform label_encoder_transform X (Some Y)
  = [Raise TypeError].
Proof.
  unfold text_to_tokens_mask. intros H.
  destruct (_text_to_ids _ _ _ _) as [| out outs]; [congruence |].
  cbn [generate]. unfold text_to_tokens_mask_item.
  destruct (out_labels out); reflexivity.
Qed.

(** C6, as the code has it. With [max_length = 4] and the single tuple
    (label [x], type [rel], target 1, source 0) the generator step raises a
    [TypeError] and yields no matrix, while the declared shape of
    ["associations"] is [4, 4]. *)
Theorem encode_raises_for_in_range_tuple :
  text_to_tokens_mask Ex6.config false (Ex6._text_to_ids 1 0)
    Ex6.association_encoder_transform Ex6.label_encoder_transform
    tt (Some tt)
  = [Raise TypeError]
  /\ snd (feed_shape_type_def Ex6.config false 2) = [4; 4].
Proof. split; reflexivity. Qed.

(** C9, as the code has it. With [max_length = 4] and a tuple whose source
    token index is 7, outside the window, the generator step raises the
    same [TypeError] as for a tuple inside the window: the error of the
    malformed [csr_matrix] call of line 43, not an [IndexError]. *)
Theorem encode_out_of_range_is_not_index_error :
  text_to_tokens_mask Ex6.config false (Ex6._text_to_ids 1 7)
    Ex6.association_encoder_transform Ex6.label_encoder_transform
    tt (Some tt)
  = [Raise TypeError]
  /\ TypeError <> IndexError.
Proof. split; [reflexivity | discriminate]. Qed.

(** ** Encoding and decoding one relation *)

(** C7, as the code has it. For two tokens, the relation types [<PAD>]
    (id 0) and [rel] (id 1) and the relation (source 0, target 1, type
    [rel]): encoding the tuple raises the [TypeError] of line 43 and yields
    no matrix, and decoding the score tensor that is one-hot at [0, 1, 1]
    raises the [TypeError] of line 247, whatever the tensor operations are.
    Neither side returns a value from which the triple or a confidence
    could be read. *)
Theorem round_trip_raises_on_both_sides {P I : Type}
  (tf_softmax : list (list (list float)) -> result P)
  (tf_argmax : list (list (list float)) -> I) :
  text_to_tokens_mask Ex6.config false (Ex6._text_to_ids 1 0)
    Ex6.association_encoder_transform Ex6.label_encoder_transform
    tt (Some tt)
  = [Raise TypeError]
  /\ one_hot 2 2 0 1 1 = [[[0; 0]; [0; 1]]; [[0; 0]; [0; 0]]]%float
  /\ NoSeq.decode tf_softmax tf_argmax (one_hot 2 2 0 1 1) = Raise TypeError.
Proof. repeat split; reflexivity. Qed.

(** ** Further properties of the trusted-range policy *)

Lemma step_size_below_5 (max_length : Z) :
  max_length < 5 -> step_size max_length <= 0.
Proof.
  intros H. unfold step_size, chunk_size.
  assert ((max_length - 2) / 3 < 1) by (apply Z.div_lt_upper_bound; lia).
  lia.
Qed.

Lemma slice_empty_when_crossed {A} (lo hi : Z) (l : list A) :
  adjust (len l) hi <= adjust (len l) lo -> slice lo (Some hi) l = [].
Proof.
  intros H. unfold slice.
  now replace (Z.to_nat (adjust (len l) hi - adjust (len l) lo)) with O by lia.
Qed.

(** X1. When [max_length] is below 5 the step is zero or negative and a
    window that is neither first nor last of its document contributes no
    token at all. *)
Theorem middle_window_contributes_nothing_below_5 {A} (max_length : Z)
  (l : list A) :
  max_length < 5 -> trusted_slice max_length false false l = [].
Proof.
  intros H. pose proof (step_size_below_5 max_length H) as Hs.
  unfold trusted_slice, trusted_range. cbv beta iota zeta.
  apply slice_empty_when_crossed.
  assert (Hn : 0 <= len l) by (unfold len; lia).
  unfold adjust.
  destruct (Z.ltb_spec (step_size max_length * 2) 0);
    destruct (Z.ltb_spec (step_size max_length) 0); lia.
Qed.

Lemma middle_window_contributes_nothing_below_5_witness :
  trusted_slice 1 false false [10; 11; 12; 13] = [].
Proof.
  apply (middle_window_contributes_nothing_below_5 1 [10; 11; 12; 13]). lia.
Defined.

Lemma length_slice_le {A} (lo hi : Z) (l : list A) :
  0 <= lo <= hi -> Z.of_nat (List.length (slice lo (Some hi) l)) <= hi - lo.
Proof.
  intros H. unfold slice. rewrite length_firstn.
  assert (Hn : 0 <= len l) by (unfold len; lia).
  rewrite !adjust_nonneg by lia. lia.
Qed.

(** X2. For [max_length >= 2] a window that is not the last of its document
    contributes at most [2 * step] tokens, and at most [step] tokens when it
    is not the first one either. *)
Theorem trusted_slice_length_bound {A} (max_length : Z) (first : bool)
  (l : list A) :
  2 <= max_length ->
  Z.of_nat (List.length (trusted_slice max_length first false l))
  <= (if first then 2 else 1) * step_size max_length.
Proof.
  intros H. pose proof (step_size_nonneg max_length H) as Hs.
  unfold trusted_slice, trusted_range. cbv beta iota zeta.
  destruct first; cbn [negb].
  - pose proof (length_slice_le 0 (step_size max_length * 2) l). lia.
  - pose proof (length_slice_le (step_size max_length)
                  (step_size max_length * 2) l). lia.
Qed.

Lemma trusted_slice_length_bound_witness :
  Z.of_nat (List.length (trusted_slice 12 false false
                           [10; 11; 12; 13; 14; 15; 16; 17; 18; 19]))
  <= (if false then 2 else 1) * step_size 12.
Proof.
  apply (trusted_slice_length_bound 12 false). lia.
Defined.

(** ** Further properties of the token loop *)

Section TokenLoopFacts.

Context {char : Type}.
Variable X : list (list char).
Variable doc_idx : Z.

Lemma token_loop_skips_padding (toks : list (label * Z * proba))
  (od : option doc_state) :
  for_each (token_body X doc_idx) toks od
  = for_each (token_body X doc_idx)
      (filter (fun tok => negb (is_padding tok)) toks) od.
Proof.
  revert od. induction toks as [| [[lab pos] pr] toks IH]; intros od;
    [reflexivity |].
  cbn [filter]. change (is_padding (lab, pos, pr)) with (pos =? -1).
  destruct (pos =? -1) eqn:E; cbn [negb].
  - cbn [for_each]. unfold token_body at 1. rewrite E. cbn [bind]. apply IH.
  - cbn [for_each]. destruct (token_body X doc_idx od (lab, pos, pr));
      cbn [bind]; [apply IH | reflexivity].
Qed.

(** X4. Padding tokens (offset [-1]) leave no trace: the loop over the
    tokens of a window ends in the same state, or the same exception, as the
    loop over its tokens that are not padding. *)
Theorem padding_tokens_are_skipped (toks : list (label * Z * proba))
  (od : option doc_state) :
  for_each (token_body X doc_idx) toks od
  = for_each (token_body X doc_idx)
      (filter (fun tok => negb (is_padding tok)) toks) od.
Proof.
  revert od. induction toks as [| [[lab pos] pr] toks IH]; intros od;
    [reflexivity |].
  cbn [filter]. change (is_padding (lab, pos, pr)) with (pos =? -1).
  destruct (pos =? -1) eqn:E; cbn [negb].
  - cbn [for_each]. unfold token_body at 1. rewrite E. cbn [bind]. apply IH.
  - cbn [for_each]. destruct (token_body X doc_idx od (lab, pos, pr));
      cbn [bind]; [apply IH | reflexivity].
Qed.

Lemma token_body_unbound (tok : label * Z * proba) :
  token_body X doc_idx None tok = Ok None
  \/ token_body X doc_idx None tok = Raise NameError.
Proof.
  destruct tok as [[lab pos] pr]. unfold token_body.
  destruct (pos =? -1); auto.
Qed.

Lemma token_loop_unbound (toks : list (label * Z * proba)) :
  for_each (token_body X doc_idx) toks None = Ok None
  \/ for_each (token_body X doc_idx) toks None = Raise NameError.
Proof.
  induction toks as [| tok toks IH]; [now left |].
  cbn [for_each].
  destruct (token_body_unbound tok) as [-> | ->]; cbn [bind]; auto.
Qed.

Lemma token_body_bound (d : doc_state) (tok : label * Z * proba)
  (od : option doc_state) :
  token_body X doc_idx (Some d) tok = Ok od -> exists d', od = Some d'.
Proof.
  destruct tok as [[lab pos] pr]. unfold token_body.
  destruct (pos =? -1); [intros [= <-]; eauto |].
  destruct (match doc_subseqs d with
            | [] => Ok true
            | _ :: _ => prev <- getitem (doc_labels d) (-1) ;;
                        Ok (negb (String.eqb lab prev))
            end) as [[|] | e]; cbn [bind]; try discriminate;
    destruct (getitem X doc_idx); cbn [bind]; try discriminate.
  - intros [= <-]. eauto.
  - destruct (update_last _ (doc_subseqs d)); cbn [bind]; try discriminate.
    destruct (update_last _ (doc_probs d)); cbn [bind]; try discriminate.
    intros [= <-]. eauto.
Qed.

Lemma token_loop_bound (toks : list (label * Z * proba)) (d : doc_state)
  (od : option doc_state) :
  for_each (token_body X doc_idx) toks (Some d) = Ok od ->
  exists d', od = Some d'.
Proof.
  revert d. induction toks as [| tok toks IH]; intros d; cbn [for_each].
  - intros [= <-]. eauto.
  - destruct (token_body X doc_idx (Some d) tok) as [od1 | e] eqn:E;
      cbn [bind]; [| discriminate].
    destruct (token_body_bound d tok od1 E) as [d1 ->]. apply IH.
Qed.

End TokenLoopFacts.

(** The loop only reads [X[doc_idx]]. *)
Lemma token_body_text {char} (X X' : list (list char)) (i i' : Z)
  (od : option doc_state) (tok : label * Z * proba) :
  getitem X i = getitem X' i' ->
  token_body X i od tok = token_body X' i' od tok.
Proof.
  intros E. destruct tok as [[lab pos] pr]. unfold token_body. now rewrite E.
Qed.

Lemma token_loop_text {char} (X X' : list (list char)) (i i' : Z)
  (toks : list (label * Z * proba)) (od : option doc_state) :
  getitem X i = getitem X' i' ->
  for_each (token_body X i) toks od = for_each (token_body X' i') toks od.
Proof.
  intros E. revert od. induction toks as [| tok toks IH]; intros od;
    [reflexivity |].
  cbn [for_each]. rewrite (token_body_text X X' i i' od tok E).
  destruct (token_body X' i' od tok); cbn [bind]; [apply IH | reflexivity].
Qed.

(** ** The window loop, document by document *)

Lemma bind_ret_r {A} (m : result A) : (a <- m ;; Ok a) = m.
Proof. now destruct m. Qed.

Lemma len_app {A} (l1 l2 : list A) : len (l1 ++ l2) = len l1 + len l2.
Proof. unfold len. rewrite length_app. lia. Qed.

Lemma len_cons {A} (a : A) (l : list A) : len (a :: l) = len l + 1.
Proof. unfold len. cbn [List.length]. lia. Qed.

Lemma len_nonneg {A} (l : list A) : 0 <= len l.
Proof. unfold len. lia. Qed.

Lemma getitem_mid {A} (pre : list A) (w : A) (post : list A) :
  getitem (pre ++ w :: post) (len pre) = Ok w.
Proof.
  unfold getitem. pose proof (len_nonneg pre).
  destruct (Z.ltb_spec (len pre) 0); [lia |].
  destruct (Z.ltb_spec (len pre) 0); [lia |].
  unfold len. rewrite Nat2Z.id.
  now rewrite nth_error_app2, Nat.sub_diag by lia.
Qed.

Lemma getitem_mid_next {A} (pre : list A) (w w' : A) (post : list A) :
  getitem (pre ++ w :: w' :: post) (len pre + 1) = Ok w'.
Proof.
  replace (pre ++ w :: w' :: post) with ((pre ++ [w]) ++ w' :: post)
    by now rewrite <- app_assoc.
  replace (len pre + 1) with (len (pre ++ [w]))
    by (rewrite len_app; reflexivity).
  apply getitem_mid.
Qed.

Lemma enumerate_from_app {A} (i : Z) (l1 l2 : list A) :
  enumerate_from i (l1 ++ l2)
  = enumerate_from i l1 ++ enumerate_from (i + len l1) l2.
Proof.
  revert i. induction l1 as [| a l1 IH]; intros i; cbn [app enumerate_from].
  - f_equal. unfold len. cbn. lia.
  - f_equal. rewrite IH. f_equal. rewrite len_cons. f_equal. lia.
Qed.

Lemma combine_app {A B} (a1 a2 : list A) (b1 b2 : list B) :
  List.length a1 = List.length b1 ->
  combine (a1 ++ a2) (b1 ++ b2) = combine a1 b1 ++ combine a2 b2.
Proof.
  revert b1. induction a1 as [| a a1 IH]; intros [| b b1] H;
    cbn in *; try discriminate; [reflexivity |].
  f_equal. apply IH. congruence.
Qed.

Lemma combine_of_pairs {A B C} (l : list (A * (B * C))) :
  combine (map (fun wp => fst (snd wp)) l) (map (fun wp => snd (snd wp)) l)
  = map snd l.
Proof.
  induction l as [| [a [b c]] l IH]; [reflexivity |].
  cbn. now rewrite IH.
Qed.

Section WindowStream.

Context {char : Type}.
Variable max_length : Z.
Variable multi_label : bool.
Variable pad_token : string.
Variable classes_ : list label.
Variable ENCODER_start : Z.
Variable X : list (list char).

Local Abbreviation body :=
  (chunk_body max_length multi_label pad_token classes_ ENCODER_start X).
Local Abbreviation step :=
  (chunk_step max_length multi_label pad_token classes_ X).
Local Abbreviation finish' := (finish multi_label pad_token classes_).

Lemma opens_document_inv (w : ArrayEncodedOutput) :
  opens_document ENCODER_start w = true ->
  exists t, first_token_id w = Ok t /\ (t =? ENCODER_start) = true.
Proof.
  unfold opens_document. destruct (first_token_id w); [eauto | discriminate].
Qed.

Lemma continues_document_inv (w : ArrayEncodedOutput) :
  continues_document ENCODER_start w = true ->
  exists t, first_token_id w = Ok t /\ (t =? ENCODER_start) = false.
Proof.
  unfold continues_document.
  destruct (first_token_id w) as [t |]; [| discriminate].
  intros H. exists t. split; [reflexivity |]. now apply negb_true_iff.
Qed.

(** The window at position [len pre] of the stream. *)
Lemma chunk_body_at (pre : list ArrayEncodedOutput) (w : ArrayEncodedOutput)
  (post : list ArrayEncodedOutput) (st : loop_state)
  (l : list label) (p : list proba) :
  body (pre ++ w :: post) st (len pre, (l, p)) =
  t <- first_token_id w ;;
  e <- match post with
       | [] => Ok true
       | w' :: _ => t' <- first_token_id w' ;; Ok (t' =? ENCODER_start)
       end ;;
  step (t =? ENCODER_start) e (char_locs w) st l p.
Proof.
  unfold chunk_body. rewrite getitem_mid. cbn [bind].
  destruct (first_token_id w) as [t | e]; cbn [bind]; [| reflexivity].
  destruct post as [| w' post].
  - replace (len pre + 1 >=? len (pre ++ [w])) with true
      by (symmetry; rewrite Z.geb_leb; apply Z.leb_le;
          rewrite len_app; reflexivity).
    cbn [bind]. unfold chunk_step, finish.
    destruct (t =? ENCODER_start); reflexivity.
  - replace (len pre + 1 >=? len (pre ++ w :: w' :: post)) with false
      by (symmetry; rewrite Z.geb_leb; apply Z.leb_gt;
          rewrite len_app, !len_cons; pose proof (len_nonneg post); lia).
    rewrite getitem_mid_next. cbn [bind].
    destruct (first_token_id w') as [t' | e']; cbn [bind]; [| reflexivity].
    unfold chunk_step, finish.
    destruct (t =? ENCODER_start), (t' =? ENCODER_start); reflexivity.
Qed.

Lemma finish_same (k : Z) (st st1 : @loop_state char)
  (od : option doc_state) :
  all_subseqs st1 = all_subseqs st -> all_labels st1 = all_labels st ->
  all_probs st1 = all_probs st ->
  finish' k st1 od = finish' k st od.
Proof.
  intros E1 E2 E3. unfold finish. now rewrite E1, E2, E3.
Qed.

Lemma document_ends_flag (post : list ArrayEncodedOutput) :
  document_ends ENCODER_start post ->
  match post with
  | [] => Ok true
  | w' :: _ => t' <- first_token_id w' ;; Ok (t' =? ENCODER_start)
  end = Ok true.
Proof.
  destruct post as [| w' post]; [reflexivity |]. cbn [document_ends].
  intros H. destruct (opens_document_inv w' H) as (t' & Et & Ht).
  rewrite Et. cbn [bind]. now rewrite Ht.
Qed.

(** The windows after the first one of a document, up to its last. *)
Lemma continuation_windows (dws : list window_pred) :
  forall (pre post : list ArrayEncodedOutput) (st : loop_state)
         (d : doc_state) (x : list char),
  dws <> [] ->
  forallb (fun wp => continues_document ENCODER_start (fst wp)) dws = true ->
  document_ends ENCODER_start post ->
  doc st = Some d ->
  getitem X (doc_idx st) = Ok x ->
  for_each (body (pre ++ map fst dws ++ post))
    (enumerate_from (len pre) (map snd dws)) st
  = od <- for_each (token_body [x] 0) (doc_tokens max_length false dws)
            (Some d) ;;
    finish' (doc_idx st) st od.
Proof.
  induction dws as [| [w [l p]] rest IH]; intros pre post st d x Hne Hc Hpost Hd Hx;
    [congruence |].
  cbn [forallb fst] in Hc. apply andb_prop in Hc as [Hw Hrest].
  destruct (continues_document_inv w Hw) as (t & Et & Ht).
  assert (Htext : getitem X (doc_idx st) = getitem [x] 0) by now rewrite Hx.
  cbn [map fst snd enumerate_from for_each app].
  destruct rest as [| [w' [l' p']] more].
  - cbn [map app enumerate_from for_each doc_tokens].
    rewrite chunk_body_at, Et. cbn [bind].
    rewrite (document_ends_flag post Hpost). cbn [bind].
    rewrite Ht, app_nil_r, bind_ret_r.
    unfold chunk_step. rewrite Hd.
    now rewrite (token_loop_text X [x] (doc_idx st) 0 _ _ Htext).
  - cbn [forallb fst] in Hrest. pose proof Hrest as Hrest'.
    apply andb_prop in Hrest as [Hw' _].
    destruct (continues_document_inv w' Hw') as (t' & Et' & Ht').
    change (map fst ((w', (l', p')) :: more) ++ post)
      with (w' :: (map fst more ++ post)).
    rewrite chunk_body_at, Et, Et'. cbn [bind]. rewrite Ht, Ht'.
    unfold chunk_step at 1. rewrite Hd.
    rewrite (token_loop_text X [x] (doc_idx st) 0 _ _ Htext).
    change (doc_tokens max_length false ((w, (l, p)) :: (w', (l', p')) :: more))
      with (zip3 (trusted_slice max_length false false l)
                 (trusted_slice max_length false false (char_locs w))
                 (trusted_slice max_length false false p)
            ++ doc_tokens max_length false ((w', (l', p')) :: more)).
    rewrite for_each_app.
    destruct (for_each (token_body [x] 0) _ (Some d)) as [od1 | e1] eqn:E1;
      cbn [bind]; [| reflexivity].
    destruct (token_loop_bound [x] 0 _ d od1 E1) as [d1 ->].
    set (st1 := {| doc := Some d1; doc_idx := doc_idx st;
                   all_subseqs := all_subseqs st;
                   all_labels := all_labels st;
                   all_probs := all_probs st |}).
    pose proof (IH (pre ++ [w]) post st1 d1 x) as E.
    rewrite <- app_assoc, len_app in E.
    cbn [app map fst snd] in E. change (len [w]) with 1 in E.
    etransitivity;
      [exact (E ltac:(discriminate) Hrest' Hpost eq_refl Hx) |].
    destruct (for_each (token_body [x] 0) _ (Some d1)); cbn [bind];
      [| reflexivity].
    now apply finish_same.
Qed.

(** All the windows of one document. *)
Lemma document_windows (dws : list window_pred)
  (pre post : list ArrayEncodedOutput) (st : loop_state) (x : list char) :
  one_document ENCODER_start dws = true ->
  document_ends ENCODER_start post ->
  getitem X (doc_idx st + 1) = Ok x ->
  for_each (body (pre ++ map fst dws ++ post))
    (enumerate_from (len pre) (map snd dws)) st
  = od <- for_each (token_body [x] 0) (doc_tokens max_length true dws)
            (Some fresh_doc) ;;
    finish' (doc_idx st + 1) st od.
Proof.
  intros Hdoc Hpost Hx.
  destruct dws as [| [w [l p]] rest]; [discriminate |].
  cbn [one_document] in Hdoc. apply andb_prop in Hdoc as [Hw Hrest].
  destruct (opens_document_inv w Hw) as (t & Et & Ht).
  assert (Htext : getitem X (doc_idx st + 1) = getitem [x] 0) by now rewrite Hx.
  cbn [map fst snd enumerate_from for_each app].
  destruct rest as [| [w' [l' p']] more].
  - cbn [map app enumerate_from for_each doc_tokens].
    rewrite chunk_body_at, Et. cbn [bind].
    rewrite (document_ends_flag post Hpost). cbn [bind].
    rewrite Ht, app_nil_r, bind_ret_r.
    unfold chunk_step.
    now rewrite (token_loop_text X [x] (doc_idx st + 1) 0 _ _ Htext).
  - pose proof Hrest as Hrest'. cbn [forallb fst] in Hrest.
    apply andb_prop in Hrest as [Hw' _].
    destruct (continues_document_inv w' Hw') as (t' & Et' & Ht').
    change (map fst ((w', (l', p')) :: more) ++ post)
      with (w' :: (map fst more ++ post)).
    rewrite chunk_body_at, Et, Et'. cbn [bind]. rewrite Ht, Ht'.
    unfold chunk_step at 1.
    rewrite (token_loop_text X [x] (doc_idx st + 1) 0 _ _ Htext).
    change (doc_tokens max_length true ((w, (l, p)) :: (w', (l', p')) :: more))
      with (zip3 (trusted_slice max_length true false l)
                 (trusted_slice max_length true false (char_locs w))
                 (trusted_slice max_length true false p)
            ++ doc_tokens max_length false ((w', (l', p')) :: more)).
    rewrite for_each_app. fold (@fresh_doc char).
    destruct (for_each (token_body [x] 0) _ (Some fresh_doc)) as [od1 | e1] eqn:E1;
      cbn [bind]; [| reflexivity].
    destruct (token_loop_bound [x] 0 _ _ od1 E1) as [d1 ->].
    set (st1 := {| doc := Some d1; doc_idx := doc_idx st + 1;
                   all_subseqs := all_subseqs st;
                   all_labels := all_labels st;
                   all_probs := all_probs st |}).
    pose proof (continuation_windows ((w', (l', p')) :: more)
                  (pre ++ [w]) post st1 d1 x) as E.
    rewrite <- app_assoc, len_app in E.
    cbn [app map fst snd] in E. change (len [w]) with 1 in E.
    etransitivity;
      [exact (E ltac:(discriminate) Hrest' Hpost eq_refl Hx) |].
    destruct (for_each (token_body [x] 0) _ (Some d1)); cbn [bind];
      [| reflexivity].
    now apply finish_same.
Qed.

End WindowStream.

Section Batch.

Context {char : Type}.
Variable max_length : Z.
Variable multi_label : bool.
Variable pad_token : string.
Variable classes_ : list label.
Variable ENCODER_start : Z.

Local Abbreviation reconcile' :=
  (@reconcile char max_length multi_label pad_token classes_ ENCODER_start).
Local Abbreviation reconcile_doc' :=
  (@reconcile_doc char max_length multi_label pad_token classes_).
Local Abbreviation reconcile_docs' :=
  (@reconcile_docs char max_length multi_label pad_token classes_).
Local Abbreviation doc_step :=
  (fun acc (doc : list char * list window_pred) =>
     r <- reconcile_doc' (fst doc) (snd doc) ;; Ok (append_spans acc r)).

Lemma document_ends_batch (docs : list (list char * list window_pred)) :
  forallb (one_document ENCODER_start) (map snd docs) = true ->
  document_ends ENCODER_start (batch_windows docs).
Proof.
  destruct docs as [| [x dws] docs]; [reflexivity |].
  cbn [map snd forallb]. intros H. apply andb_prop in H as [H _].
  destruct dws as [| [w lp] rest]; [discriminate |].
  cbn [one_document] in H. apply andb_prop in H as [H _]. exact H.
Qed.

Lemma batch_chunks (x : list char) (dws : list window_pred)
  (docs : list (list char * list window_pred)) :
  combine (batch_labels ((x, dws) :: docs)) (batch_probas ((x, dws) :: docs))
  = map snd dws ++ combine (batch_labels docs) (batch_probas docs).
Proof.
  unfold batch_labels, batch_probas. cbn [flat_map snd].
  rewrite combine_app by now rewrite !length_map.
  now rewrite combine_of_pairs.
Qed.

Lemma batch_loop (docs : list (list char * list window_pred)) :
  forall (Xpre : list (list char)) (pre : list ArrayEncodedOutput)
         (st : loop_state),
  forallb (one_document ENCODER_start) (map snd docs) = true ->
  doc_idx st = len Xpre - 1 ->
  (st' <- for_each
            (chunk_body max_length multi_label pad_token classes_
               ENCODER_start (Xpre ++ map fst docs)
               (pre ++ batch_windows docs))
            (enumerate_from (len pre)
               (combine (batch_labels docs) (batch_probas docs))) st ;;
   Ok (all_subseqs st', all_labels st', all_probs st'))
  = for_each doc_step docs (all_subseqs st, all_labels st, all_probs st).
Proof.
  induction docs as [| [x dws] docs IH]; intros Xpre pre st Hwf Hidx;
    [reflexivity |].
  cbn [map snd forallb] in Hwf. apply andb_prop in Hwf as [Hdoc Hdocs].
  rewrite batch_chunks, enumerate_from_app, for_each_app.
  change (batch_windows ((x, dws) :: docs))
    with (map fst dws ++ batch_windows docs).
  cbn [map fst].
  rewrite (document_windows max_length multi_label pad_token classes_
             ENCODER_start (Xpre ++ x :: map fst docs) dws pre
             (batch_windows docs) st x Hdoc (document_ends_batch docs Hdocs)).
  2: { rewrite Hidx. replace (len Xpre - 1 + 1) with (len Xpre) by lia.
       apply getitem_mid. }
  cbn [for_each fst snd]. unfold reconcile_doc.
  destruct (for_each (token_body [x] 0) _ (Some fresh_doc)) as [[d |] | e];
    cbn [bind finish]; try reflexivity.
  destruct (finalize multi_label pad_token classes_ d) as [pds | e];
    cbn [bind]; [| reflexivity].
  set (st1 := {| doc := Some d; doc_idx := doc_idx st + 1;
                 all_subseqs := all_subseqs st ++ [doc_subseqs d];
                 all_labels := all_labels st ++ [doc_labels d];
                 all_probs := all_probs st ++ [pds] |}).
  pose proof (IH (Xpre ++ [x]) (pre ++ map fst dws) st1 Hdocs) as E.
  rewrite <- !app_assoc, (len_app pre (map fst dws)) in E. cbn [app] in E.
  replace (len (map fst dws)) with (len (map snd dws)) in E
    by (unfold len; now rewrite !length_map).
  rewrite E; [reflexivity |].
  cbn [st1 doc_idx]. rewrite Hidx, len_app. change (len [x]) with 1. lia.
Qed.

Lemma reconcile_as_documents (docs : list (list char * list window_pred)) :
  forallb (one_document ENCODER_start) (map snd docs) = true ->
  reconcile' (map fst docs) (batch_windows docs) (batch_labels docs)
    (batch_probas docs)
  = reconcile_docs' docs.
Proof.
  intros Hwf. unfold reconcile, reconcile_docs.
  exact (batch_loop docs [] [] init_state Hwf eq_refl).
Qed.

(** X5. On a batch in which every document comes as one window that opens
    with the start token followed by windows that do not, the window loop of
    [predict] computes what a loop over the documents computes: for each
    document one pass over its trusted tokens from a fresh state, then the
    finalizer; the first exception of a document is the exception of the
    batch. *)
Theorem reconcile_by_document (docs : list (list char * list window_pred)) :
  forallb (one_document ENCODER_start) (map snd docs) = true ->
  reconcile' (map fst docs) (batch_windows docs) (batch_labels docs)
    (batch_probas docs)
  = reconcile_docs' docs.
Proof.
  intros Hwf. unfold reconcile, reconcile_docs.
  exact (batch_loop docs [] [] init_state Hwf eq_refl).
Qed.

Lemma doc_fold_from (docs : list (list char * list window_pred))
  (acc : list (list (list char)) * list (list label)
         * list (list (Dict.t float))) :
  for_each doc_step docs acc
  = r <- for_each doc_step docs ([], [], []) ;; Ok (concat_spans acc r).
Proof.
  revert acc. induction docs as [| doc docs IH]; intros [[S L] P].
  - cbn. unfold concat_spans. cbn. now rewrite !app_nil_r.
  - cbn [for_each].
    destruct (reconcile_doc' (fst doc) (snd doc)) as [[[s l] p] | e];
      cbn [bind]; [| reflexivity].
    rewrite IH. rewrite (IH (append_spans ([], [], []) (s, l, p))).
    destruct (for_each doc_step docs ([], [], [])) as [[[S' L'] P'] | e];
      cbn [bind]; [| reflexivity].
    unfold concat_spans, append_spans. cbn. now rewrite <- !app_assoc.
Qed.

Lemma batch_app (docs1 docs2 : list (list char * list window_pred)) :
  batch_windows (docs1 ++ docs2) = batch_windows docs1 ++ batch_windows docs2
  /\ batch_labels (docs1 ++ docs2) = batch_labels docs1 ++ batch_labels docs2
  /\ batch_probas (docs1 ++ docs2) = batch_probas docs1 ++ batch_probas docs2.
Proof.
  unfold batch_windows, batch_labels, batch_probas.
  now rewrite !flat_map_app.
Qed.

(** X6. Documents do not influence each other: on two batches of
    well-formed documents handed over as one, [predict]'s loop returns the
    spans of the first batch followed by the spans of the second, or the
    first exception met in that order. *)
Theorem documents_are_independent
  (docs1 docs2 : list (list char * list window_pred)) :
  forallb (one_document ENCODER_start) (map snd docs1) = true ->
  forallb (one_document ENCODER_start) (map snd docs2) = true ->
  reconcile' (map fst docs1 ++ map fst docs2)
    (batch_windows docs1 ++ batch_windows docs2)
    (batch_labels docs1 ++ batch_labels docs2)
    (batch_probas docs1 ++ batch_probas docs2)
  = r1 <- reconcile' (map fst docs1) (batch_windows docs1)
            (batch_labels docs1) (batch_probas docs1) ;;
    r2 <- reconcile' (map fst docs2) (batch_windows docs2)
            (batch_labels docs2) (batch_probas docs2) ;;
    Ok (concat_spans r1 r2).
Proof.
  intros H1 H2.
  destruct (batch_app docs1 docs2) as (Ew & El & Ep).
  rewrite <- map_app, <- Ew, <- El, <- Ep.
  rewrite !reconcile_as_documents;
    try assumption; [| now rewrite map_app, forallb_app, H1, H2].
  unfold reconcile_docs. rewrite for_each_app.
  destruct (for_each doc_step docs1 ([], [], [])) as [r1 | e]; cbn [bind];
    [| reflexivity].
  apply doc_fold_from.
Qed.

Lemma zip3_of_maps {A B C D} (f : D -> A) (g : D -> B) (h : D -> C)
  (l : list D) :
  zip3 (map f l) (map g l) (map h l) = map (fun d => (f d, g d, h d)) l.
Proof.
  induction l as [| d l IH]; [reflexivity |]. cbn. now rewrite IH.
Qed.

Lemma doc_tokens_stitched (dws : list window_pred) :
  doc_tokens max_length true [stitched_doc max_length dws]
  = doc_tokens max_length true dws.
Proof.
  unfold stitched_doc. cbn [doc_tokens char_locs].
  change (trusted_slice max_length true true ?l) with (slice 0 None l).
  rewrite !slice_all, app_nil_r, zip3_of_maps.
  transitivity (map (fun tok => tok) (doc_tokens max_length true dws));
    [| apply map_id].
  apply map_ext. now intros [[lab pos] pr].
Qed.

(** X7. For every [max_length] and every number of windows, a well-formed
    document reconciles to what the loop returns on the single window that
    carries exactly the trusted tokens of its windows, in order. *)
Theorem stitching_any_number_of_windows (x : list char)
  (dws : list window_pred) :
  one_document ENCODER_start dws = true ->
  reconcile' [x] (map fst dws) (map (fun wp => fst (snd wp)) dws)
    (map (fun wp => snd (snd wp)) dws)
  = reconcile' [x] [fst (stitched_doc max_length dws)]
      [fst (snd (stitched_doc max_length dws))]
      [snd (snd (stitched_doc max_length dws))].
Proof.
  intros Hdoc.
  pose proof (reconcile_as_documents [(x, dws)]) as E1.
  pose proof (reconcile_as_documents [(x, [stitched_doc max_length dws])]) as E2.
  unfold batch_windows, batch_labels, batch_probas in E1, E2.
  cbn [map fst snd flat_map forallb] in E1, E2.
  rewrite !app_nil_r in E1. cbn [app] in E2.
  rewrite E1 by now rewrite Hdoc.
  rewrite E2.
  - unfold reconcile_docs. cbn [for_each fst snd]. unfold reconcile_doc.
    now rewrite doc_tokens_stitched.
  - destruct dws as [| [w lp] rest]; [discriminate |].
    cbn [one_document] in Hdoc. apply andb_prop in Hdoc as [Hw _].
    unfold one_document, stitched_doc. cbn [fst forallb].
    unfold opens_document, first_token_id in *. cbn [token_ids].
    now rewrite Hw.
Qed.

Lemma finalize_fresh :
  finalize multi_label pad_token classes_ (@fresh_doc char) = Ok [].
Proof. reflexivity. Qed.

Lemma Forall_zip3_mid {A B C} (P : B -> Prop) (a : list A) (b : list B)
  (c : list C) :
  Forall P b -> Forall (fun t => P (snd (fst t))) (zip3 a b c).
Proof.
  revert b c. induction a as [| x a IH]; intros [| y b] [| z c] H;
    cbn; try constructor.
  - inversion H; assumption.
  - inversion H; subst. now apply IH.
Qed.

Lemma doc_tokens_all_padding (first : bool) (dws : list window_pred) :
  Forall (fun wp => Forall (fun p => p = -1) (char_locs (fst wp))) dws ->
  Forall (fun tok => is_padding tok = true) (doc_tokens max_length first dws).
Proof.
  revert first. induction dws as [| [w [l p]] rest IH]; intros first H;
    [constructor |].
  apply Forall_cons_iff in H as [Hw Hrest]. cbn [fst] in Hw.
  cbn [doc_tokens]. apply Forall_app. split; [| now apply IH].
  apply (Forall_zip3_mid (fun p => (p =? -1) = true)).
  apply Forall_trusted_slice.
  eapply Forall_impl; [| exact Hw]. intros q ->. reflexivity.
Qed.

Lemma filter_none {A} (f : A -> bool) (l : list A) :
  Forall (fun a => f a = true) l -> filter (fun a => negb (f a)) l = [].
Proof.
  induction l as [| a l IH]; intros H; [reflexivity |].
  apply Forall_cons_iff in H as [Ha Hl]. cbn [filter]. rewrite Ha. cbn.
  now apply IH.
Qed.

(** X8. A well-formed document all of whose tokens are padding (offset
    [-1] everywhere) yields one empty list of span texts, of labels and of
    probability dictionaries; the text of the document is never read. *)
Theorem document_of_padding_has_no_span (x : list char)
  (dws : list window_pred) :
  one_document ENCODER_start dws = true ->
  Forall (fun wp => Forall (fun p => p = -1) (char_locs (fst wp))) dws ->
  reconcile' [x] (map fst dws) (map (fun wp => fst (snd wp)) dws)
    (map (fun wp => snd (snd wp)) dws)
  = Ok ([[]], [[]], [[]]).
Proof.
  intros Hdoc Hpad.
  pose proof (reconcile_as_documents [(x, dws)]) as E.
  unfold batch_windows, batch_labels, batch_probas in E.
  cbn [map fst snd flat_map forallb] in E. rewrite !app_nil_r in E.
  rewrite E by now rewrite Hdoc.
  unfold reconcile_docs. cbn [for_each fst snd]. unfold reconcile_doc.
  rewrite token_loop_skips_padding.
  rewrite (filter_none is_padding) by now apply doc_tokens_all_padding.
  cbn [for_each bind]. rewrite finalize_fresh. reflexivity.
Qed.

End Batch.

(** ** Witnesses of the document-wise statements *)

Lemma reconcile_by_document_witness :
  reconcile 12 false "<PAD>" ["A"; "B"]%string 7
    (map fst [(Ex3.x, Ex5.doc1); (Ex5.x2, Ex5.doc2)])
    (batch_windows [(Ex3.x, Ex5.doc1); (Ex5.x2, Ex5.doc2)])
    (batch_labels [(Ex3.x, Ex5.doc1); (Ex5.x2, Ex5.doc2)])
    (batch_probas [(Ex3.x, Ex5.doc1); (Ex5.x2, Ex5.doc2)])
  = reconcile_docs 12 false "<PAD>" ["A"; "B"]%string
      [(Ex3.x, Ex5.doc1); (Ex5.x2, Ex5.doc2)].
Proof.
  apply (reconcile_by_document 12 false "<PAD>" ["A"; "B"]%string 7
           [(Ex3.x, Ex5.doc1); (Ex5.x2, Ex5.doc2)]).
  reflexivity.
Defined.

Lemma documents_are_independent_witness :
  reconcile 12 false "<PAD>" ["A"; "B"]%string 7
    (map fst [(Ex3.x, Ex5.doc1)] ++ map fst [(Ex5.x2, Ex5.doc2)])
    (batch_windows [(Ex3.x, Ex5.doc1)] ++ batch_windows [(Ex5.x2, Ex5.doc2)])
    (batch_labels [(Ex3.x, Ex5.doc1)] ++ batch_labels [(Ex5.x2, Ex5.doc2)])
    (batch_probas [(Ex3.x, Ex5.doc1)] ++ batch_probas [(Ex5.x2, Ex5.doc2)])
  = r1 <- reconcile 12 false "<PAD>" ["A"; "B"]%string 7
            (map fst [(Ex3.x, Ex5.doc1)]) (batch_windows [(Ex3.x, Ex5.doc1)])
            (batch_labels [(Ex3.x, Ex5.doc1)])
            (batch_probas [(Ex3.x, Ex5.doc1)]) ;;
    r2 <- reconcile 12 false "<PAD>" ["A"; "B"]%string 7
            (map fst [(Ex5.x2, Ex5.doc2)]) (batch_windows [(Ex5.x2, Ex5.doc2)])
            (batch_labels [(Ex5.x2, Ex5.doc2)])
            (batch_probas [(Ex5.x2, Ex5.doc2)]) ;;
    Ok (concat_spans r1 r2).
Proof.
  apply (documents_are_independent 12 false "<PAD>" ["A"; "B"]%string 7
           [(Ex3.x, Ex5.doc1)] [(Ex5.x2, Ex5.doc2)]); reflexivity.
Defined.

Lemma stitching_any_number_of_windows_witness :
  reconcile 12 false "<PAD>" ["A"; "B"]%string 7 [Ex3.x]
    (map fst Ex5.doc1) (map (fun wp => fst (snd wp)) Ex5.doc1)
    (map (fun wp => snd (snd wp)) Ex5.doc1)
  = reconcile 12 false "<PAD>" ["A"; "B"]%string 7 [Ex3.x]
      [fst (stitched_doc 12 Ex5.doc1)]
      [fst (snd (stitched_doc 12 Ex5.doc1))]
      [snd (snd (stitched_doc 12 Ex5.doc1))].
Proof.
  apply (stitching_any_number_of_windows 12 false "<PAD>" ["A"; "B"]%string 7
           Ex3.x Ex5.doc1).
  reflexivity.
Defined.

Lemma document_of_padding_has_no_span_witness :
  reconcile 12 false "<PAD>" ["A"; "B"]%string 7 [Ex3.x]
    (map fst Ex5.padding_doc) (map (fun wp => fst (snd wp)) Ex5.padding_doc)
    (map (fun wp => snd (snd wp)) Ex5.padding_doc)
  = Ok ([[]], [[]], [[]]).
Proof.
  apply (document_of_padding_has_no_span 12 false "<PAD>" ["A"; "B"]%string 7
           Ex3.x Ex5.padding_doc).
  - reflexivity.
  - repeat constructor.
Defined.

(** ** A stream that never opens a document *)

Section Unopened.

Context {char : Type}.
Variable max_length : Z.
Variable multi_label : bool.
Variable pad_token : string.
Variable classes_ : list label.
Variable ENCODER_start : Z.
Variable X : list (list char).

Lemma unopened_windows (dws : list window_pred) :
  forall (pre : list ArrayEncodedOutput) (st : loop_state),
  dws <> [] ->
  forallb (fun wp => continues_document ENCODER_start (fst wp)) dws = true ->
  doc st = None ->
  for_each
    (chunk_body max_length multi_label pad_token classes_ ENCODER_start X
       (pre ++ map fst dws))
    (enumerate_from (len pre) (map snd dws)) st
  = Raise NameError.
Proof.
  induction dws as [| [w [l p]] rest IH]; intros pre st Hne Hc Hd;
    [congruence |].
  cbn [forallb fst] in Hc. apply andb_prop in Hc as [Hw Hrest].
  destruct (continues_document_inv ENCODER_start w Hw) as (t & Et & Ht).
  cbn [map fst snd enumerate_from for_each].
  rewrite chunk_body_at, Et. cbn [bind].
  destruct rest as [| [w' [l' p']] more].
  - cbn [map bind]. rewrite Ht. unfold chunk_step. rewrite Hd.
    destruct (token_loop_unbound X (doc_idx st)
                (zip3 (trusted_slice max_length false true l)
                      (trusted_slice max_length false true (char_locs w))
                      (trusted_slice max_length false true p)))
      as [-> | ->]; reflexivity.
  - pose proof Hrest as Hrest'. cbn [forallb fst] in Hrest.
    apply andb_prop in Hrest as [Hw' _].
    destruct (continues_document_inv ENCODER_start w' Hw') as (t' & Et' & Ht').
    cbn [map fst]. rewrite Et'. cbn [bind]. rewrite Ht, Ht'.
    unfold chunk_step. rewrite Hd.
    destruct (token_loop_unbound X (doc_idx st)
                (zip3 (trusted_slice max_length false false l)
                      (trusted_slice max_length false false (char_locs w))
                      (trusted_slice max_length false false p)))
      as [-> | ->]; cbn [bind]; [| reflexivity].
    pose proof (IH (pre ++ [w])
                  {| doc := None; doc_idx := doc_idx st;
                     all_subseqs := all_subseqs st;
                     all_labels := all_labels st;
                     all_probs := all_probs st |}) as E.
    rewrite <- app_assoc, len_app in E.
    cbn [app map fst snd] in E. change (len [w]) with 1 in E.
    exact (E ltac:(discriminate) Hrest' eq_refl).
Qed.

(** X9. When no window handed to the loop opens with the start token (and
    there is a prediction for each of at least one window), the loop ends
    in a [NameError]: the accumulators of lines 154-158 were never bound. *)
Theorem stream_without_start_token_raises (dws : list window_pred) :
  dws <> [] ->
  forallb (fun wp => continues_document ENCODER_start (fst wp)) dws = true ->
  reconcile max_length multi_label pad_token classes_ ENCODER_start X
    (map fst dws) (map (fun wp => fst (snd wp)) dws)
    (map (fun wp => snd (snd wp)) dws)
  = Raise NameError.
Proof.
  intros Hne Hc. unfold reconcile. rewrite combine_of_pairs.
  pose proof (unopened_windows dws [] init_state Hne Hc eq_refl) as E.
  unfold len in E. cbn [app List.length Z.of_nat] in E.
  now rewrite E.
Qed.

End Unopened.

Lemma stream_without_start_token_raises_witness :
  reconcile 12 false "<PAD>" ["A"; "B"]%string 7 [Ex3.x]
    (map fst Ex5.unopened) (map (fun wp => fst (snd wp)) Ex5.unopened)
    (map (fun wp => snd (snd wp)) Ex5.unopened)
  = Raise NameError.
Proof.
  apply (stream_without_start_token_raises 12 false "<PAD>"
           ["A"; "B"]%string 7 [Ex3.x] Ex5.unopened).
  - discriminate.
  - reflexivity.
Defined.

(** ** Shapes kept by the loop *)

Lemma for_each_invariant {S A} (P : S -> Prop) (body : S -> A -> result S)
  (xs : list A) :
  (forall s a s', P s -> body s a = Ok s' -> P s') ->
  forall st st', P st -> for_each body xs st = Ok st' -> P st'.
Proof.
  intros Hbody. induction xs as [| a xs IH]; intros st st' Hst; cbn [for_each].
  - now intros [= <-].
  - destruct (body st a) as [s1 | e] eqn:E; cbn [bind]; [| discriminate].
    apply IH. now apply (Hbody st a).
Qed.

Lemma getitem_last_inv {A} (l : list A) (a : A) :
  getitem l (-1) = Ok a -> exists l', l = l' ++ [a].
Proof.
  destruct l as [| b l]; [discriminate |].
  destruct (snoc_of_length (b :: l)) as (l' & c & E); [cbn; lia |].
  rewrite E, getitem_last. intros [= <-]. eauto.
Qed.

Lemma update_last_inv {A} (f : A -> A) (l l' : list A) :
  update_last f l = Ok l' -> exists l0 a, l = l0 ++ [a] /\ l' = l0 ++ [f a].
Proof.
  destruct l as [| b l]; [discriminate |].
  destruct (snoc_of_length (b :: l)) as (l0 & a & E); [cbn; lia |].
  rewrite E, update_last_snoc. intros [= <-]. eauto.
Qed.

Lemma no_adjacent_eq_snoc (l : list label) (a b : label) :
  no_adjacent_eq (l ++ [a]) -> a <> b -> no_adjacent_eq (l ++ [a; b]).
Proof.
  intros H Hab. revert H. induction l as [| c l IH]; intros H.
  - cbn. auto.
  - destruct l as [| c' l].
    + cbn in *. tauto.
    + cbn [app no_adjacent_eq] in H. destruct H as [Hc H].
      cbn [app no_adjacent_eq]. split; [exact Hc | now apply IH].
Qed.

Section ShapeFacts.

Context {char : Type}.
Variable max_length : Z.
Variable multi_label : bool.
Variable pad_token : string.
Variable classes_ : list label.
Variable ENCODER_start : Z.
Variable X : list (list char).

Lemma token_body_well_shaped (i : Z) (od od' : option doc_state)
  (tok : label * Z * proba) :
  well_shaped od -> token_body X i od tok = Ok od' -> well_shaped od'.
Proof.
  destruct tok as [[lab pos] pr]. unfold token_body.
  destruct (pos =? -1); [now intros H [= <-] |].
  destruct od as [d |]; [| discriminate].
  intros (H1 & H2 & H3).
  destruct (doc_subseqs d) as [| s subs] eqn:Hsubs.
  - cbn [bind]. destruct (getitem X i); cbn [bind]; [| discriminate].
    intros [= <-]. cbn [well_shaped doc_subseqs doc_labels doc_probs].
    destruct (doc_labels d); [| discriminate].
    destruct (doc_probs d); [| discriminate]. cbn. auto.
  - destruct (getitem (doc_labels d) (-1)) as [prev |] eqn:Eprev;
      cbn [bind]; [| discriminate].
    destruct (getitem_last_inv _ _ Eprev) as [labs Elabs].
    destruct (String.eqb_spec lab prev) as [-> | Hneq]; cbn [negb];
      destruct (getitem X i); cbn [bind]; try discriminate.
    + destruct (update_last _ (s :: subs)) as [subs' |] eqn:Es;
        cbn [bind]; [| discriminate].
      destruct (update_last _ (doc_probs d)) as [probs' |] eqn:Ep;
        cbn [bind]; [| discriminate].
      intros [= <-]. cbn [well_shaped doc_subseqs doc_labels doc_probs].
      destruct (update_last_inv _ _ _ Es) as (s0 & sa & E1 & ->).
      destruct (update_last_inv _ _ _ Ep) as (p0 & pa & E2 & ->).
      rewrite E1 in H1. rewrite E2 in H2.
      rewrite !length_app in *. cbn [List.length] in *. auto.
    + intros [= <-]. cbn [well_shaped doc_subseqs doc_labels doc_probs].
      repeat split;
        try (cbn [app List.length] in *; rewrite ?length_app;
             cbn [List.length]; lia).
      rewrite Elabs, <- app_assoc. cbn [app].
      apply no_adjacent_eq_snoc; [now rewrite <- Elabs | congruence].
Qed.

Lemma finalize_loop_length (pss : list (list proba))
  (acc r : list (Dict.t float)) :
  for_each (fun prob_dicts prob_seq =>
              pd <- prob_dict multi_label pad_token classes_ prob_seq ;;
              Ok (prob_dicts ++ [pd])) pss acc = Ok r ->
  List.length r = (List.length acc + List.length pss)%nat.
Proof.
  revert acc. induction pss as [| ps pss IH]; intros acc; cbn [for_each].
  - intros [= <-]. cbn. lia.
  - destruct (prob_dict multi_label pad_token classes_ ps); cbn [bind];
      [| discriminate].
    intros H. apply IH in H. rewrite length_app in H. cbn in *. lia.
Qed.

Lemma chunk_body_outputs_ok (arr : list ArrayEncodedOutput)
  (st st' : loop_state) (chunk : Z * (list label * list proba)) :
  outputs_ok st ->
  chunk_body max_length multi_label pad_token classes_ ENCODER_start X arr
    st chunk = Ok st' ->
  outputs_ok st'.
Proof.
  destruct chunk as [i [l p]]. intros (Hd & HSL & HLP & HL).
  unfold chunk_body.
  destruct (getitem arr i) as [enc |]; cbn [bind]; [| discriminate].
  destruct (first_token_id enc) as [t |]; cbn [bind]; [| discriminate].
  destruct (if i + 1 >=? len arr then Ok true
            else nxt <- getitem arr (i + 1) ;;
                 t' <- first_token_id nxt ;; Ok (t' =? ENCODER_start))
    as [e |]; cbn [bind]; [| discriminate].
  set (start := t =? ENCODER_start).
  assert (Hod : well_shaped
                  (fst (if start
                        then (Some {| doc_subseqs := []; doc_labels := [];
                                      doc_probs := []; start_of_token := 0 |},
                              doc_idx st + 1)
                        else (doc st, doc_idx st)))).
  { destruct start; cbn; auto. }
  destruct (if start
            then (Some {| doc_subseqs := []; doc_labels := [];
                          doc_probs := []; start_of_token := 0 |},
                  doc_idx st + 1)
            else (doc st, doc_idx st)) as [od k].
  cbn [fst] in Hod.
  destruct (for_each (token_body X k) _ od) as [od' |] eqn:Eloop;
    cbn [bind]; [| discriminate].
  assert (Hod' : well_shaped od').
  { revert Eloop. apply for_each_invariant; [| exact Hod].
    intros s a s' Hs Hb. exact (token_body_well_shaped k s s' a Hs Hb). }
  destruct e.
  - destruct od' as [d |]; [| discriminate].
    destruct (finalize multi_label pad_token classes_ d) as [pds |] eqn:Ef;
      cbn [bind]; [| discriminate].
    intros [= <-]. destruct Hod' as (H1 & H2 & H3).
    unfold finalize in Ef. apply finalize_loop_length in Ef. cbn in Ef.
    unfold outputs_ok. cbn [doc all_subseqs all_labels all_probs well_shaped].
    repeat split; auto.
    + apply Forall2_app; [exact HSL | constructor; auto].
    + apply Forall2_app; [exact HLP | constructor; [lia | constructor]].
    + apply Forall_app. split; [exact HL | now constructor].
  - intros [= <-]. unfold outputs_ok. cbn. auto.
Qed.

Lemma reconcile_outputs_ok (arr : list ArrayEncodedOutput)
  (labels : list (list label)) (batch_probas : list (list proba))
  (Sq : list (list (list char))) (L : list (list label))
  (P : list (list (Dict.t float))) :
  reconcile max_length multi_label pad_token classes_ ENCODER_start X arr
    labels batch_probas = Ok (Sq, L, P) ->
  Forall2 (fun s l => List.length s = List.length l) Sq L
  /\ Forall2 (fun (l : list label) (p : list (Dict.t float)) =>
                List.length l = List.length p) L P
  /\ Forall no_adjacent_eq L.
Proof.
  unfold reconcile.
  destruct (for_each _ _ init_state) as [st |] eqn:E; cbn [bind];
    [| discriminate].
  intros [= <- <- <-].
  assert (H : outputs_ok st).
  { revert E. apply for_each_invariant.
    - intros s a s' Hs Hb. exact (chunk_body_outputs_ok arr s s' a Hs Hb).
    - unfold outputs_ok, init_state. cbn. auto. }
  destruct H as (_ & H1 & H2 & H3). auto.
Qed.

(** X10. Whenever the loop of [predict] returns, what it hands to the
    mapper is parallel: as many lists of texts as of labels as of
    probability dictionaries, and for each document as many span texts as
    span labels as dictionaries. *)
Theorem spans_are_parallel (arr : list ArrayEncodedOutput)
  (labels : list (list label)) (batch_probas : list (list proba))
  (Sq : list (list (list char))) (L : list (list label))
  (P : list (list (Dict.t float))) :
  reconcile max_length multi_label pad_token classes_ ENCODER_start X arr
    labels batch_probas = Ok (Sq, L, P) ->
  List.length Sq = List.length L /\ List.length L = List.length P
  /\ Forall2 (fun s l => List.length s = List.length l) Sq L
  /\ Forall2 (fun (l : list label) (p : list (Dict.t float)) =>
                List.length l = List.length p) L P.
Proof.
  intros H. destruct (reconcile_outputs_ok arr labels batch_probas Sq L P H)
    as (H1 & H2 & _).
  repeat split; try assumption.
  - exact (Forall2_length H1).
  - exact (Forall2_length H2).
Qed.

(** X11. Whenever the loop of [predict] returns, no two neighbouring spans
    of a document carry the same label: runs of equal labels are always
    merged into one span. *)
Theorem neighbouring_spans_differ_in_label (arr : list ArrayEncodedOutput)
  (labels : list (list label)) (batch_probas : list (list proba))
  (Sq : list (list (list char))) (L : list (list label))
  (P : list (list (Dict.t float))) :
  reconcile max_length multi_label pad_token classes_ ENCODER_start X arr
    labels batch_probas = Ok (Sq, L, P) ->
  Forall no_adjacent_eq L.
Proof.
  intros H. now destruct (reconcile_outputs_ok arr labels batch_probas Sq L P H)
    as (_ & _ & H3).
Qed.

End ShapeFacts.

Lemma spans_are_parallel_witness :
  List.length (fst (fst Ex5.spans3)) = List.length (snd (fst Ex5.spans3))
  /\ List.length (snd (fst Ex5.spans3)) = List.length (snd Ex5.spans3)
  /\ Forall2 (fun s l => List.length s = List.length l)
       (fst (fst Ex5.spans3)) (snd (fst Ex5.spans3))
  /\ Forall2 (fun (l : list label) (p : list (Dict.t float)) =>
                List.length l = List.length p)
       (snd (fst Ex5.spans3)) (snd Ex5.spans3).
Proof.
  apply (spans_are_parallel 12 false "<PAD>" ["A"; "B"]%string 7 [Ex3.x]
           [Ex3.w1; Ex3.w2; Ex3.w3] [Ex3.l1; Ex3.l2; Ex3.l3]
           [Ex3.p; Ex3.p; Ex3.p]).
  vm_compute. reflexivity.
Defined.

Lemma neighbouring_spans_differ_in_label_witness :
  Forall no_adjacent_eq (snd (fst Ex5.spans3)).
Proof.
  apply (neighbouring_spans_differ_in_label 12 false "<PAD>"
           ["A"; "B"]%string 7 [Ex3.x]
           [Ex3.w1; Ex3.w2; Ex3.w3] [Ex3.l1; Ex3.l2; Ex3.l3]
           [Ex3.p; Ex3.p; Ex3.p] (fst (fst Ex5.spans3)) _ (snd Ex5.spans3)).
  vm_compute. reflexivity.
Defined.

(** ** The span texts tile the text; every token gives one vector *)

Lemma slice_adjacent {A} (x : list A) (a b c : Z) :
  0 <= a <= b -> b <= c ->
  slice a (Some b) x ++ slice b (Some c) x = slice a (Some c) x.
Proof.
  intros Hab Hbc. unfold slice. pose proof (len_nonneg x) as Hn.
  rewrite !adjust_nonneg by lia.
  set (n := len x) in *.
  pose proof (firstn_skipn_adjacent x (Z.to_nat (Z.min a n))
                (Z.to_nat (Z.min b n - Z.min a n))
                (Z.to_nat (Z.min c n - Z.min b n))) as E.
  replace (Z.to_nat (Z.min a n) + Z.to_nat (Z.min b n - Z.min a n))%nat
    with (Z.to_nat (Z.min b n)) in E by lia.
  replace (Z.to_nat (Z.min b n - Z.min a n)
           + Z.to_nat (Z.min c n - Z.min b n))%nat
    with (Z.to_nat (Z.min c n - Z.min a n)) in E by lia.
  exact E.
Qed.

Lemma last_cons {A} (a d : A) (l : list A) : last (a :: l) d = last l a.
Proof.
  revert a. induction l as [| b l IH]; intros a; [reflexivity |].
  cbn [last] in *. destruct l; [reflexivity | apply IH].
Qed.

Lemma positions_cons (tok : label * Z * proba) (toks : list (label * Z * proba)) :
  positions (tok :: toks)
  = if is_padding tok then positions toks
    else snd (fst tok) :: positions toks.
Proof. unfold positions. cbn [filter]. now destruct (is_padding tok). Qed.

Lemma concat_snoc {A} (ls : list (list A)) (l : list A) :
  List.concat (ls ++ [l]) = List.concat ls ++ l.
Proof. rewrite concat_app. cbn. now rewrite app_nil_r. Qed.

Section Tiling.

Context {char : Type}.
Variable x : list char.

Lemma token_body_tiles (d d' : doc_state) (tok : label * Z * proba) :
  tiles x d ->
  (is_padding tok = false -> start_of_token d <= snd (fst tok)) ->
  token_body [x] 0 (Some d) tok = Ok (Some d') ->
  tiles x d'
  /\ start_of_token d'
     = (if is_padding tok then start_of_token d else snd (fst tok))
  /\ List.length (List.concat (doc_probs d'))
     = ((if is_padding tok then 0 else 1)
        + List.length (List.concat (doc_probs d)))%nat
  /\ (Forall (fun ps => ps <> []) (doc_probs d) ->
      Forall (fun ps => ps <> []) (doc_probs d')).
Proof.
  destruct tok as [[lab pos] pr]. unfold is_padding. cbn [fst snd].
  intros [Ht H0] Hpos. unfold token_body.
  destruct (pos =? -1); [intros [= <-]; repeat split; auto |].
  specialize (Hpos eq_refl).
  assert (Hnew : forall labs probs,
             tiles x {| doc_subseqs := doc_subseqs d
                                       ++ [slice (start_of_token d) (Some pos) x];
                        doc_labels := labs; doc_probs := probs;
                        start_of_token := pos |}).
  { intros. unfold tiles. cbn [doc_subseqs start_of_token]. rewrite concat_snoc, Ht.
    split; [apply slice_adjacent; lia | lia]. }
  destruct (match doc_subseqs d with
            | [] => Ok true
            | _ :: _ => prev <- getitem (doc_labels d) (-1) ;;
                        Ok (negb (String.eqb lab prev))
            end) as [[|] | e]; cbn [bind getitem Z.ltb Z.compare Z.to_nat nth_error];
    try discriminate.
  - intros [= <-]. cbn [doc_subseqs doc_labels doc_probs start_of_token].
    split; [apply Hnew |]. split; [reflexivity |]. split.
    + rewrite concat_snoc, length_app. cbn. lia.
    + intros H. apply Forall_app. split; [exact H |].
      repeat constructor. discriminate.
  - destruct (update_last _ (doc_subseqs d)) as [subs' |] eqn:Es;
      cbn [bind]; [| discriminate].
    destruct (update_last _ (doc_probs d)) as [probs' |] eqn:Ep;
      cbn [bind]; [| discriminate].
    intros [= <-]. cbn [doc_subseqs doc_labels doc_probs start_of_token].
    destruct (update_last_inv _ _ _ Es) as (s0 & sa & E1 & ->).
    destruct (update_last_inv _ _ _ Ep) as (p0 & pa & E2 & ->).
    split; [| split; [reflexivity | split]].
    + unfold tiles. cbn [doc_subseqs start_of_token].
      rewrite concat_snoc, app_assoc, <- concat_snoc, <- E1, Ht.
      split; [apply slice_adjacent; lia | lia].
    + rewrite E2, !concat_snoc, !length_app. cbn. lia.
    + rewrite E2. intros H. apply Forall_app in H as [Hp _].
      apply Forall_app. split; [exact Hp |].
      repeat constructor. intros E. now apply app_eq_nil in E.
Qed.

Lemma token_loop_tiles (toks : list (label * Z * proba)) :
  forall d d' : doc_state,
  tiles x d ->
  ascending (start_of_token d) (positions toks) ->
  for_each (token_body [x] 0) toks (Some d) = Ok (Some d') ->
  tiles x d'
  /\ start_of_token d' = last (positions toks) (start_of_token d)
  /\ List.length (List.concat (doc_probs d'))
     = (List.length (positions toks)
        + List.length (List.concat (doc_probs d)))%nat
  /\ (Forall (fun ps => ps <> []) (doc_probs d) ->
      Forall (fun ps => ps <> []) (doc_probs d')).
Proof.
  induction toks as [| tok toks IH]; intros d d' Ht Hasc; cbn [for_each].
  - intros [= <-]. cbn. auto.
  - destruct (token_body [x] 0 (Some d) tok) as [od1 |] eqn:E1; cbn [bind];
      [| discriminate].
    destruct (token_body_bound [x] 0 d tok od1 E1) as [d1 ->].
    rewrite positions_cons in Hasc |- *.
    intros Hloop.
    destruct (token_body_tiles d d1 tok Ht) as (Ht1 & Hs1 & Hc1 & Hf1);
      [| exact E1 |].
    { intros Hp. rewrite Hp in Hasc. now destruct Hasc. }
    destruct (is_padding tok); cbv iota in Hs1, Hc1, Hasc.
    + rewrite <- Hs1 in Hasc.
      destruct (IH d1 d' Ht1 Hasc Hloop) as (H1 & H2 & H3 & H4).
      split; [exact H1 | split; [congruence | split; [lia | auto]]].
    + destruct Hasc as [_ Hasc]. rewrite <- Hs1 in Hasc.
      destruct (IH d1 d' Ht1 Hasc Hloop) as (H1 & H2 & H3 & H4).
      split; [exact H1 | split; [| split]].
      * rewrite last_cons. congruence.
      * cbn [List.length]. lia.
      * auto.
Qed.

(** X12. From the state bound at the first window of a document, after any
    tokens whose end offsets (padding aside) start at 0 or more and never
    decrease, the span texts put end to end are exactly the text of the
    document from its first character up to the last end offset: no
    character is lost, repeated or moved. *)
Theorem span_texts_tile_the_document (toks : list (label * Z * proba))
  (d : doc_state) :
  ascending 0 (positions toks) ->
  for_each (token_body [x] 0) toks (Some fresh_doc) = Ok (Some d) ->
  List.concat (doc_subseqs d) = slice 0 (Some (last (positions toks) 0)) x.
Proof.
  intros Hasc Hloop.
  destruct (token_loop_tiles toks fresh_doc d) as ([H1 _] & H2 & _);
    try assumption.
  - unfold tiles, fresh_doc. cbn. split; [| lia].
    symmetry. apply slice_empty.
  - cbn [fresh_doc start_of_token] in H2. now rewrite <- H2.
Qed.

(** X13. Under the same condition every token that is not padding gives
    exactly one probability vector to exactly one span, and no span is left
    without a vector. *)
Theorem every_token_gives_one_vector (toks : list (label * Z * proba))
  (d : doc_state) :
  ascending 0 (positions toks) ->
  for_each (token_body [x] 0) toks (Some fresh_doc) = Ok (Some d) ->
  List.length (List.concat (doc_probs d)) = List.length (positions toks)
  /\ Forall (fun ps => ps <> []) (doc_probs d).
Proof.
  intros Hasc Hloop.
  destruct (token_loop_tiles toks fresh_doc d) as (_ & _ & H3 & H4);
    try assumption.
  - unfold tiles, fresh_doc. cbn. split; [| lia].
    symmetry. apply slice_empty.
  - cbn [fresh_doc doc_probs List.concat List.length] in H3, H4.
    split; [lia | apply H4; constructor].
Qed.

End Tiling.

Lemma span_texts_tile_the_document_witness :
  List.concat (doc_subseqs Ex5.after_toks)
  = slice 0 (Some (last (positions Ex5.toks) 0)) Ex3.x.
Proof.
  apply (span_texts_tile_the_document Ex3.x Ex5.toks Ex5.after_toks).
  - vm_compute. repeat split; discriminate.
  - vm_compute. reflexivity.
Defined.

Lemma every_token_gives_one_vector_witness :
  List.length (List.concat (doc_probs Ex5.after_toks))
  = List.length (positions Ex5.toks)
  /\ Forall (fun ps => ps <> []) (doc_probs Ex5.after_toks).
Proof.
  apply (every_token_gives_one_vector Ex3.x Ex5.toks Ex5.after_toks).
  - vm_compute. repeat split; discriminate.
  - vm_compute. reflexivity.
Defined.
(** ** The probability dictionary of a span *)

(** X14. In single-label mode, for distinct classes and probability vectors
    with one entry per class, the finalizer builds a dictionary for the
    span that lists the classes in their order, one probability each. *)
Theorem span_distribution_lists_the_classes (pad_token : string)
  (classes_ : list label) (prob_seq : list proba) :
  NoDup classes_ ->
  prob_seq <> [] ->
  Forall (fun v => List.length v = List.length classes_) prob_seq ->
  exists d,
    prob_dict false pad_token classes_ prob_seq = Ok d
    /\ map fst d = classes_.
Proof.
  intros Hnd Hne Hlen.
  exists (combine classes_ (Np.mean_axis0 prob_seq)).
  split.
  - rewrite (prob_dict_single_label _ _ (List.length classes_)) by assumption.
    now rewrite Dict_of_pairs_classes.
  - apply map_fst_combine. symmetry. now apply length_mean_axis0.
Qed.

Lemma span_distribution_lists_the_classes_witness :
  exists d,
    prob_dict false "<PAD>" ["A"; "B"]%string
      [[0.25; 0.75]; [1; 0]]%float = Ok d
    /\ map fst d = ["A"; "B"]%string.
Proof.
  apply (span_distribution_lists_the_classes "<PAD>" ["A"; "B"]%string
           [[0.25; 0.75]; [1; 0]]%float).
  - repeat constructor; cbn; intuition discriminate.
  - discriminate.
  - repeat constructor.
Defined.

Lemma Dict_mem_set {V} (k k' : string) (v : V) (d : Dict.t V) :
  Dict.mem k (Dict.set k' v d) = true -> k = k' \/ Dict.mem k d = true.
Proof.
  unfold Dict.mem. induction d as [| [k0 v0] d IH]; cbn [Dict.set existsb fst].
  - rewrite orb_false_r. intros H. left. now apply String.eqb_eq.
  - destruct (String.eqb_spec k' k0) as [-> | Hne]; cbn [existsb fst].
    + intros H. now right.
    + intros H. apply orb_prop in H as [H | H].
      * right. now rewrite H.
      * destruct (IH H) as [-> | H']; [now left |].
        right. rewrite H'. apply orb_true_r.
Qed.

Lemma Dict_mem_of_pairs {V} (k : string) (l : list (string * V)) :
  Dict.mem k (Dict.of_pairs l) = true -> In k (map fst l).
Proof.
  unfold Dict.of_pairs.
  assert (H : forall acc,
             Dict.mem k (fold_left (fun d kv => Dict.set (fst kv) (snd kv) d)
                           l acc) = true ->
             Dict.mem k acc = true \/ In k (map fst l)).
  { induction l as [| [k' v'] l IH]; intros acc; cbn [fold_left map fst snd].
    - auto.
    - intros Hm. destruct (IH _ Hm) as [Hs | Hin].
      + destruct (Dict_mem_set _ _ _ _ Hs) as [-> | Ha]; [right; now left | now left].
      + right. now right. }
  intros Hm. destruct (H [] Hm) as [Hnil | Hin]; [discriminate | exact Hin].
Qed.

Lemma Dict_mem_filter_out {V} (k : string) (d : Dict.t V) :
  Dict.mem k (filter (fun kv => negb (String.eqb k (fst kv))) d) = false.
Proof.
  unfold Dict.mem. induction d as [| [k' v'] d IH]; [reflexivity |].
  cbn [filter fst]. destruct (String.eqb k k') eqn:E; cbn [negb]; [exact IH |].
  cbn [existsb fst]. now rewrite E, IH.
Qed.

(** X15. In multi-label mode a dictionary that the finalizer builds never
    holds the pad class. *)
Theorem multi_label_dictionary_has_no_pad_class (pad_token : string)
  (classes_ : list label) (prob_seq : list proba) (d : Dict.t float) :
  prob_dict true pad_token classes_ prob_seq = Ok d ->
  Dict.mem pad_token d = false.
Proof.
  unfold prob_dict.
  destruct (Np.vstack prob_seq) as [m |]; cbn [bind]; [| discriminate].
  unfold Dict.del. destruct (Dict.mem pad_token _); [| discriminate].
  intros [= <-]. apply Dict_mem_filter_out.
Qed.

Lemma multi_label_dictionary_has_no_pad_class_witness :
  Dict.mem "<PAD>"
    [("A"%string, nth 1 (Np.mean_axis0 [[0; 1]; [0; 1]]%float) 0%float)] = false.
Proof.
  apply (multi_label_dictionary_has_no_pad_class "<PAD>"
           ["<PAD>"; "A"]%string [[0; 1]; [0; 1]]%float).
  vm_compute. reflexivity.
Defined.

(** X16. In multi-label mode, when the pad token is not one of the label
    classes, the finalizer raises a [KeyError] for every span whose
    probability vectors stack. *)
Theorem multi_label_needs_the_pad_class (pad_token : string)
  (classes_ : list label) (prob_seq m : list proba) :
  ~ In pad_token classes_ ->
  Np.vstack prob_seq = Ok m ->
  prob_dict true pad_token classes_ prob_seq = Raise KeyError.
Proof.
  intros Hpad Hm. unfold prob_dict. rewrite Hm. cbn [bind]. unfold Dict.del.
  destruct (Dict.mem pad_token
              (Dict.of_pairs (combine classes_ (Np.mean_axis0 m)))) eqn:E;
    [| reflexivity].
  exfalso. apply Hpad. apply Dict_mem_of_pairs in E.
  apply in_map_iff in E as ([k v] & <- & Hin).
  now apply in_combine_l in Hin.
Qed.

Lemma multi_label_needs_the_pad_class_witness :
  prob_dict true "<PAD>" ["A"; "B"]%string [[0; 1]; [0; 1]]%float
  = Raise KeyError.
Proof.
  apply (multi_label_needs_the_pad_class "<PAD>" ["A"; "B"]%string
           [[0; 1]; [0; 1]]%float [[0; 1]; [0; 1]]%float).
  - cbn. intuition discriminate.
  - reflexivity.
Defined.

(** ** One list of spans per document *)

Section PerDocument.

Context {char : Type}.
Variable max_length : Z.
Variable multi_label : bool.
Variable pad_token : string.
Variable classes_ : list label.
Variable ENCODER_start : Z.

Lemma doc_fold_length (docs : list (list char * list window_pred))
  (acc r : list (list (list char)) * list (list label)
           * list (list (Dict.t float))) :
  for_each (fun acc doc =>
              r <- reconcile_doc max_length multi_label pad_token classes_
                     (fst doc) (snd doc) ;;
              Ok (append_spans acc r)) docs acc = Ok r ->
  List.length (fst (fst r))
  = (List.length (fst (fst acc)) + List.length docs)%nat.
Proof.
  revert acc. induction docs as [| doc docs IH]; intros acc; cbn [for_each].
  - intros [= <-]. cbn. lia.
  - destruct (reconcile_doc max_length multi_label pad_token classes_
                (fst doc) (snd doc)) as [[[s l] p] |]; cbn [bind];
      [| discriminate].
    intros H. apply IH in H. destruct acc as [[S0 L0] P0].
    cbn [append_spans fst] in H. rewrite length_app in H. cbn in *. lia.
Qed.

(** X17. On a batch of well-formed documents, whenever the loop of
    [predict] returns it returns exactly one list of spans per document. *)
Theorem one_span_list_per_document
  (docs : list (list char * list window_pred))
  (Sq : list (list (list char))) (L : list (list label))
  (P : list (list (Dict.t float))) :
  forallb (one_document ENCODER_start) (map snd docs) = true ->
  reconcile max_length multi_label pad_token classes_ ENCODER_start
    (map fst docs) (batch_windows docs) (batch_labels docs)
    (batch_probas docs) = Ok (Sq, L, P) ->
  List.length Sq = List.length docs.
Proof.
  intros Hwf. rewrite reconcile_as_documents by assumption.
  unfold reconcile_docs. intros H. apply doc_fold_length in H. exact H.
Qed.

End PerDocument.

Lemma one_span_list_per_document_witness :
  List.length (fst (fst Ex5.spans3)) = List.length [(Ex3.x, Ex5.doc1)].
Proof.
  apply (one_span_list_per_document 12 false "<PAD>" ["A"; "B"]%string 7
           [(Ex3.x, Ex5.doc1)] (fst (fst Ex5.spans3)) (snd (fst Ex5.spans3))
           (snd Ex5.spans3)).
  - reflexivity.
  - vm_compute. reflexivity.
Defined.

(** ** Coverage when the windows are cut at the end of the document *)

Lemma slice_Zrange_clamped (lo hi a b : Z) :
  0 <= lo <= hi -> a <= b ->
  slice lo (Some hi) (Zrange a b)
  = Zrange (Z.min (a + lo) b) (Z.min (a + hi) b).
Proof.
  intros H1 H2. unfold slice.
  assert (Hlen : len (Zrange a b) = b - a)
    by (unfold len; rewrite length_Zrange; lia).
  rewrite Hlen, !adjust_nonneg by lia.
  rewrite skipn_Zrange, firstn_Zrange by lia. f_equal; lia.
Qed.

Lemma slice_open_Zrange_clamped (lo a b : Z) :
  0 <= lo -> a <= b -> slice lo None (Zrange a b) = Zrange (Z.min (a + lo) b) b.
Proof.
  intros H1 H2. unfold slice.
  assert (Hlen : len (Zrange a b) = b - a)
    by (unfold len; rewrite length_Zrange; lia).
  rewrite Hlen, adjust_nonneg by lia.
  rewrite skipn_Zrange by lia.
  rewrite firstn_all2 by (rewrite length_Zrange; lia). f_equal; lia.
Qed.

Lemma w_end_ge_start (w : Window) : w_start w <= w_end w.
Proof. unfold w_end. lia. Qed.

Section CutCoverage.

Variable max_length : Z.
Variable N : Z.
Local Abbreviation step := (step_size max_length).
Hypothesis step_pos : 0 < step.

Lemma cut_tail_windows_tile (ws : list Window) (w : Window) :
  strided step (w :: ws) = true ->
  cut_at_end step N (w :: ws) = true ->
  List.concat (doc_trusted_positions max_length false (w :: ws))
  = Zrange (Z.min (w_start w + step) N) N.
Proof.
  revert w. induction ws as [| w' ws IH]; intros w Hs Hc;
    pose proof (w_end_ge_start w) as Hw.
  - cbn in Hc. apply Z.eqb_eq in Hc.
    cbn [doc_trusted_positions List.concat]. rewrite app_nil_r.
    unfold_trusted. rewrite slice_open_Zrange_clamped by lia. now rewrite Hc.
  - cbn [strided cut_at_end] in Hs, Hc.
    apply andb_prop in Hs as [Hs1 Hs2].
    apply andb_prop in Hc as [Hc Hc3]. apply andb_prop in Hc as [Hc1 Hc2].
    apply Z.eqb_eq in Hs1. apply Z.leb_le in Hc1, Hc2.
    change (doc_trusted_positions max_length false (w :: w' :: ws))
      with (trusted_positions max_length false false w
            :: doc_trusted_positions max_length false (w' :: ws)).
    cbn [List.concat]. rewrite IH by assumption.
    unfold_trusted. rewrite slice_Zrange_clamped by lia.
    rewrite Hs1.
    replace (Z.min (w_start w + step) (w_end w))
      with (Z.min (w_start w + step) N) by lia.
    replace (Z.min (w_start w + step * 2) (w_end w))
      with (Z.min (w_start w + step + step) N) by lia.
    apply Zrange_app. lia.
Qed.

Lemma cut_windows_tile (ws : list Window) :
  starts_at_zero ws = true ->
  strided step ws = true ->
  cut_at_end step N ws = true ->
  List.concat (doc_trusted_positions max_length true ws) = Zrange 0 N.
Proof.
  destruct ws as [| w [| w' ws]]; intros H0 Hs Hc; [discriminate | |];
    pose proof (w_end_ge_start w) as Hw.
  - cbn in H0, Hc. apply Z.eqb_eq in H0, Hc.
    cbn [doc_trusted_positions List.concat].
    rewrite trusted_positions_first_only, app_nil_r. now rewrite H0, Hc.
  - cbn [starts_at_zero] in H0. apply Z.eqb_eq in H0.
    pose proof Hs as Hs'. pose proof Hc as Hc'.
    cbn [strided cut_at_end] in Hs, Hc.
    apply andb_prop in Hs as [Hs1 Hs2].
    apply andb_prop in Hc as [Hc Hc3]. apply andb_prop in Hc as [Hc1 Hc2].
    apply Z.eqb_eq in Hs1. apply Z.leb_le in Hc1, Hc2.
    change (doc_trusted_positions max_length true (w :: w' :: ws))
      with (trusted_positions max_length true false w
            :: doc_trusted_positions max_length false (w' :: ws)).
    cbn [List.concat].
    rewrite (cut_tail_windows_tile ws w') by assumption.
    unfold_trusted. rewrite slice_Zrange_clamped by lia.
    rewrite Hs1, H0. cbn [Z.add].
    replace (Z.min 0 (w_end w)) with 0 by lia.
    replace (Z.min (step * 2) (w_end w)) with (Z.min (step + step) N) by lia.
    apply Zrange_app. lia.
Qed.

End CutCoverage.

(** X18. When the windows of a document start at position 0, each exactly
    [step] tokens after its predecessor, every window but the last reaches
    [2 * step] tokens or the end of the document and the last one ends with
    it ([step > 0]), every token position of the document lies in the
    trusted range of exactly one window, also when the windows near the end
    of the document are short. *)
Theorem coverage_with_short_tail_windows (max_length N : Z)
  (ws : list Window) (p : Z) :
  0 < step_size max_length ->
  starts_at_zero ws = true ->
  strided (step_size max_length) ws = true ->
  cut_at_end (step_size max_length) N ws = true ->
  0 <= p < N ->
  cover_count max_length ws p = 1%nat.
Proof.
  intros Hstep H0 Hs Hc Hp. unfold cover_count.
  pose proof (cut_windows_tile max_length N Hstep ws H0 Hs Hc) as Htile.
  apply covered_once; rewrite Htile.
  - apply NoDup_Zrange.
  - apply In_Zrange. lia.
Qed.

Lemma coverage_with_short_tail_windows_witness :
  cover_count 11
    [{| w_start := 0; w_len := 9 |}; {| w_start := 3; w_len := 7 |};
     {| w_start := 6; w_len := 4 |}; {| w_start := 9; w_len := 1 |}] 9
  = 1%nat.
Proof.
  apply (coverage_with_short_tail_windows 11 10); try reflexivity. lia.
Defined.
